(** * esprima dispatch layer and literal classifier

    A shallow embedding of [src/esprima.ts] and of its second copy, the one
    that adds markup detection ([html_tags], [isHTML], [CustomTokenizer]).
    Both files export the same function names, so each lives in its own
    module: [Esprima] for [src/esprima.ts], [Custom] for the copy.

    The scanner, parser and comment handler classes are imported by the two
    files but are not part of them.  The functions below take what those
    classes deliver as data: a tokenizer is the finite script of what its
    successive [getNextToken] calls do, a parser is what its two entry points
    do. *)

From Stdlib Require Import ZArith Ascii String List Bool Lia.
From stdpp Require Import base option strings list gmap.

Local Open Scope Z_scope.

(** ** JavaScript strings

    A JavaScript string is a sequence of code units.  The embedding keeps the
    code units below 256, which covers every literal the two files contain;
    [slice], [substring], [split] and indexing treat all code units alike. *)

Module JSString.

(** [s.length]. *)
Definition length (s : string) : Z := Z.of_nat (String.length s).

(** [s[i]]: the one-unit string at [i], [undefined] ([None]) out of range. *)
Definition index (s : string) (i : Z) : option ascii :=
  if i <? 0 then None else String.get (Z.to_nat i) s.

(** The clamping of a relative index that [String.prototype.slice] applies
    to each of its two arguments. *)
Definition relative (len i : Z) : Z :=
  if i <? 0 then Z.max (len + i) 0 else Z.min i len.

(** [s.slice(start, end)]. *)
Definition slice (s : string) (start end_ : Z) : string :=
  let len := length s in
  let from := relative len start in
  let to := relative len end_ in
  let span := Z.max (to - from) 0 in
  String.substring (Z.to_nat from) (Z.to_nat span) s.

(** [s.substring(start, end)]: both indices are clamped to [0, len] and
    swapped when out of order. *)
Definition substring (s : string) (start end_ : Z) : string :=
  let len := length s in
  let finalStart := Z.min (Z.max start 0) len in
  let finalEnd := Z.min (Z.max end_ 0) len in
  let from := Z.min finalStart finalEnd in
  let to := Z.max finalStart finalEnd in
  String.substring (Z.to_nat from) (Z.to_nat (to - from)) s.

(** [s.split(sep)] for a separator of one code unit.  The empty string
    splits into one empty piece. *)
Fixpoint split (sep : ascii) (s : string) : list string :=
  match s with
  | EmptyString => [EmptyString]
  | String c rest =>
      if Ascii.eqb c sep then EmptyString :: split sep rest
      else match split sep rest with
           | piece :: pieces => String c piece :: pieces
           | [] => [String c EmptyString]
           end
  end.

(** [parts.join(sep)]. *)
Fixpoint join (sep : string) (parts : list string) : string :=
  match parts with
  | [] => EmptyString
  | [p] => p
  | p :: rest => p +:+ sep +:+ join sep rest
  end.

(** The cooked value of a template chunk: a backslash followed by a
    character that starts no escape sequence stands for that character
    alone (so the chunk [\s] is the one-unit string [s]).  Chunks with a
    real escape sequence are outside the embedding ([None]). *)
Definition starts_escape (c : ascii) : bool :=
  existsb (Ascii.eqb c)
    (list_ascii_of_string "'\bfnrtvxu0123456789" ++ ["034"; "010"; "013"]%char).

Fixpoint cooked (raw : string) : option string :=
  match raw with
  | EmptyString => Some EmptyString
  | String "\" EmptyString => None
  | String "\" (String c rest) =>
      if starts_escape c then None else String c <$> cooked rest
  | String c rest => String c <$> cooked rest
  end.

End JSString.

(** ** Regular expressions

    [isHTML] builds a [RegExp] from a pattern string at run time.  The
    embedding parses the pattern the way the language does for the syntax
    that occurs in it: alternatives separated by [|] (the operator of lowest
    precedence), each a sequence of terms, a term being a pattern character
    or a character class [[...]], optionally followed by [?], [*] or [+].
    Any other syntax character makes the constructor fail ([None]). *)

Module RegExp.

Inductive Atom :=
| PatternCharacter (c : ascii)
| CharacterClass (members : list ascii).

Inductive Quantifier := Once | Optional | Star | Plus.

Definition Term : Type := Atom * Quantifier.
Definition Alternative : Type := list Term.
Definition Disjunction : Type := list Alternative.

Record t := { disjunction : Disjunction; ignoreCase : bool }.

(** *** Pattern parser *)

Inductive Mode := InAlternative | InClass (members : list ascii).

(** Alternatives already closed, the terms of the open one, and whether
    the parser is inside a character class.  All lists are in reverse. *)
Record ParserState := {
  closed : list Alternative;
  current : list Term;
  mode : Mode
}.

Definition is_syntax_character (c : ascii) : bool :=
  existsb (Ascii.eqb c) (list_ascii_of_string "^$\.*+?()[]{}|").

Definition quantify (q : Quantifier) (st : ParserState) : option ParserState :=
  match current st with
  | (a, Once) :: terms =>
      Some {| closed := closed st; current := (a, q) :: terms; mode := mode st |}
  | _ => None
  end.

Definition parse_step (st : ParserState) (c : ascii) : option ParserState :=
  match mode st with
  | InClass members =>
      if Ascii.eqb c "]" then
        Some {| closed := closed st;
                current := (CharacterClass (rev members), Once) :: current st;
                mode := InAlternative |}
      else if existsb (Ascii.eqb c) (list_ascii_of_string "\^-") then None
      else Some {| closed := closed st; current := current st;
                   mode := InClass (c :: members) |}
  | InAlternative =>
      if Ascii.eqb c "|" then
        Some {| closed := rev (current st) :: closed st; current := [];
                mode := InAlternative |}
      else if Ascii.eqb c "[" then
        Some {| closed := closed st; current := current st; mode := InClass [] |}
      else if Ascii.eqb c "?" then quantify Optional st
      else if Ascii.eqb c "*" then quantify Star st
      else if Ascii.eqb c "+" then quantify Plus st
      else if is_syntax_character c then None
      else Some {| closed := closed st;
                   current := (PatternCharacter c, Once) :: current st;
                   mode := InAlternative |}
  end.

Fixpoint parse_from (st : ParserState) (pattern : string) : option Disjunction :=
  match pattern with
  | EmptyString =>
      match mode st with
      | InAlternative => Some (rev (rev (current st) :: closed st))
      | InClass _ => None
      end
  | String c rest =>
      match parse_step st c with
      | Some st' => parse_from st' rest
      | None => None
      end
  end.

Definition parse_flags (flags : string) : option bool :=
  if String.eqb flags "i" then Some true
  else if String.eqb flags EmptyString then Some false
  else None.

(** [new RegExp(pattern, flags)]. *)
Definition new (pattern flags : string) : option t :=
  match parse_from {| closed := []; current := []; mode := InAlternative |} pattern,
        parse_flags flags with
  | Some d, Some i => Some {| disjunction := d; ignoreCase := i |}
  | _, _ => None
  end.

(** *** Matcher *)

(** Canonicalisation under the [i] flag.  A code unit above 127 never
    canonicalises to one below 128, and the pattern characters here are
    all below 128, so upper-casing the range [a-z] decides every
    comparison the matcher makes. *)
Definition canonicalize (ignore : bool) (c : ascii) : ascii :=
  let n := nat_of_ascii c in
  if ignore && (97 <=? n)%nat && (n <=? 122)%nat
  then ascii_of_nat (n - 32) else c.

Definition same_unit (ignore : bool) (a b : ascii) : bool :=
  Ascii.eqb (canonicalize ignore a) (canonicalize ignore b).

Definition atom_accepts (ignore : bool) (a : Atom) (c : ascii) : bool :=
  match a with
  | PatternCharacter p => same_unit ignore p c
  | CharacterClass members => existsb (fun m => same_unit ignore m c) members
  end.

(** One unit of input consumed by atom [a], then continuation [k]. *)
Definition consume (ignore : bool) (a : Atom) (k : string -> bool)
    (input : string) : bool :=
  match input with
  | String c rest => atom_accepts ignore a c && k rest
  | EmptyString => false
  end.

(** Zero or more units consumed by atom [a], then continuation [k]. *)
Fixpoint repeat_atom (ignore : bool) (a : Atom) (k : string -> bool)
    (input : string) : bool :=
  k input ||
  match input with
  | String c rest => atom_accepts ignore a c && repeat_atom ignore a k rest
  | EmptyString => false
  end.

(** Does a prefix of the input match the sequence of terms? *)
Fixpoint match_terms (ignore : bool) (terms : Alternative) : string -> bool :=
  match terms with
  | [] => fun _ => true
  | (a, q) :: terms' =>
      let k := match_terms ignore terms' in
      match q with
      | Once => consume ignore a k
      | Optional => fun input => consume ignore a k input || k input
      | Star => repeat_atom ignore a k
      | Plus => consume ignore a (repeat_atom ignore a k)
      end
  end.

Definition match_here (r : t) (input : string) : bool :=
  existsb (fun alt => match_terms (ignoreCase r) alt input) (disjunction r).

(** [regex.test(str)] for a regular expression without the [g] and [y]
    flags: is there a match starting at some position of [str]? *)
Fixpoint test (r : t) (str : string) : bool :=
  match_here r str ||
  match str with
  | String _ rest => test r rest
  | EmptyString => false
  end.

End RegExp.

(** ** Values, errors and completions *)

(** The error record the scanner and parser raise or record. *)
Record Error := {
  message : string;
  index : Z;
  lineNumber : Z;
  column : Z
}.

(** A token as the tokenizers deliver it; the dispatch functions read
    these two properties only. *)
Record Token := { type : string; value : string }.

(** The values that are stored in option objects, returned by a
    caller-supplied delegate, or pushed to a result array.  [VToken] is an
    object with the properties of the token. *)
Inductive Value :=
| VUndefined
| VNull
| VBool (b : bool)
| VNumber (n : Z)
| VString (s : string)
| VToken (t : Token).

(** How a statement or a call completes.  [OutOfFuel] is not a JavaScript
    completion: it marks a loop that was cut off by the iteration bound of
    the embedding, and the theorems show that it never is. *)
Inductive Completion (A : Type) :=
| Normal (a : A)
| Throw (e : Error)
| OutOfFuel.
Arguments Normal {A} a.
Arguments Throw {A} e.
Arguments OutOfFuel {A}.

(** *** Computations over mutable locals *)

Definition M (S A : Type) : Type := S -> Completion A * S.

#[global] Instance M_ret {S} : MRet (M S) := fun A a s => (Normal a, s).

#[global] Instance M_bind {S} : MBind (M S) := fun A B f m s =>
  match m s with
  | (Normal a, s') => f a s'
  | (Throw e, s') => (Throw e, s')
  | (OutOfFuel, s') => (OutOfFuel, s')
  end.

Definition throw {S A} (e : Error) : M S A := fun s => (Throw e, s).
Definition gets {S A} (f : S -> A) : M S A := fun s => (Normal (f s), s).
Definition modify {S} (f : S -> S) : M S unit := fun s => (Normal tt, f s).

(** [try { body } catch (e) { handler }]. *)
Definition try_catch {S A} (body : M S A) (handler : Error -> M S A) : M S A :=
  fun s =>
    match body s with
    | (Throw e, s') => handler e s'
    | r => r
    end.

(** What one pass through the body of a [while (true)] loop asks for:
    [Continue] at a [continue] statement or at the end of the body, [Break]
    at a [break] statement. *)
Inductive Signal := Continue | Break.

Fixpoint while_true {S} (fuel : nat) (body : M S Signal) : M S unit :=
  fun s =>
    match fuel with
    | O => (OutOfFuel, s)
    | Datatypes.S fuel' =>
        match body s with
        | (Normal Continue, s') => while_true fuel' body s'
        | (Normal Break, s') => (Normal tt, s')
        | (Throw e, s') => (Throw e, s')
        | (OutOfFuel, s') => (OutOfFuel, s')
        end
    end.

(** [array.forEach(callback)]. *)
Fixpoint forEach {S A} (array : list A) (callback : A -> M S unit) : M S unit :=
  match array with
  | [] => mret tt
  | element :: rest => callback element ;; forEach rest callback
  end.

(** ** The error handler and the tokenizers

    Neither class is in the two files.  [ErrorHandler] follows the
    specification; a tokenizer is the script of what its next calls do. *)

Module ErrorHandler.

Record t := { errors : list Error; tolerant : bool }.

Definition recordError (e : Error) (h : t) : t :=
  {| errors := errors h ++ [e]; tolerant := tolerant h |}.

(** Modelled from the spec: [ErrorHandler.tolerate] (error-handler.ts is
    not among the sources).  In tolerant mode the error is appended to the
    ordered list and the call goes on; in strict mode it is raised. *)
Definition tolerate (e : Error) (h : t) : Completion unit * t :=
  if tolerant h then (Normal tt, recordError e h) else (Throw e, h).

End ErrorHandler.

Module Tokenizer.

(** One thing a tokenizer does while it is asked for the next token:
    deliver [item], hand a recoverable error to its error handler, or raise
    a lexical error. *)
Inductive Event (I : Type) :=
| Yields (item : I)
| Tolerates (e : Error)
| Throws (e : Error).
Arguments Yields {I} item.
Arguments Tolerates {I} e.
Arguments Throws {I} e.

Record t (I : Type) := {
  errorHandler : ErrorHandler.t;
  script : list (Event I)
}.
Arguments errorHandler {I} _.
Arguments script {I} _.

(** [tokenizer.getNextToken()]: the events of the script up to the first
    delivered item or raised error; [undefined] ([None]) once the source is
    exhausted. *)
Fixpoint run_script {I} (h : ErrorHandler.t) (events : list (Event I))
    : Completion (option I) * t I :=
  match events with
  | [] => (Normal None, {| errorHandler := h; script := [] |})
  | Yields item :: rest =>
      (Normal (Some item), {| errorHandler := h; script := rest |})
  | Tolerates e :: rest =>
      match ErrorHandler.tolerate e h with
      | (Normal _, h') => run_script h' rest
      | (Throw e', h') => (Throw e', {| errorHandler := h'; script := rest |})
      | (OutOfFuel, h') => (OutOfFuel, {| errorHandler := h'; script := rest |})
      end
  | Throws e :: rest => (Throw e, {| errorHandler := h; script := rest |})
  end.

Definition getNextToken {I} (tk : t I) : Completion (option I) * t I :=
  run_script (errorHandler tk) (script tk).

(** [tokenizer.errors()]. *)
Definition errors {I} (tk : t I) : list Error :=
  ErrorHandler.errors (errorHandler tk).

End Tokenizer.

(** ** Objects and arrays *)

(** An object as the map of its own properties; reading a property that is
    not there gives [undefined]. *)
Abbreviation Obj := (gmap string Value).

Definition get_property (o : Obj) (name : string) : Value :=
  default VUndefined (o !! name).

(** [typeof v === 'boolean' && v]. *)
Definition is_true (v : Value) : bool :=
  match v with
  | VBool b => b
  | _ => false
  end.

(** The same test on a property of an [options] argument that may be
    missing altogether. *)
Definition option_set (options : option Obj) (name : string) : bool :=
  match options with
  | Some o => is_true (get_property o name)
  | None => false
  end.

Module Array.

(** An array, with the [errors] property the tokenizing functions may
    attach to it. *)
Record t (A : Type) := { elements : list A; errors : option (list Error) }.
Arguments elements {A} _.
Arguments errors {A} _.

Definition empty {A} : t A := {| elements := []; errors := None |}.

Definition push {A} (x : A) (a : t A) : t A :=
  {| elements := elements a ++ [x]; errors := errors a |}.

Definition set_errors {A} (es : list Error) (a : t A) : t A :=
  {| elements := elements a; errors := Some es |}.

(** Whether a caller can read a property of that name off the array
    (the index properties left aside). *)
Definition has_property {A} (name : string) (a : t A) : bool :=
  String.eqb name "length"
  || (String.eqb name "errors" && bool_decide (is_Some (errors a))).

End Array.

(** The one-unit strings the classifier compares with. *)
Definition quote : string := "'".
Definition dquote : string := String "034" EmptyString.
Definition backtick : ascii := "`".

(** What a caller-supplied token delegate does with a token. *)
Inductive Returned := Returns (v : Value) | Raises (e : Error).
Definition Delegate : Type := Token -> Returned.

(** Modelled from the spec: the constructors of [Tokenizer] and
    [CustomTokenizer] (tokenizer.ts and custom-tokenizer.ts are not among the
    sources).  The mode of the error handler is selected once per call from
    the [tolerant] option, its list starts empty, and [scan] stands for the
    scanner: the events the source text gives rise to under these options. *)
Definition new_tokenizer {I} (scan : string -> option Obj -> list (Tokenizer.Event I))
    (code : string) (options : option Obj) : Tokenizer.t I :=
  {| Tokenizer.errorHandler :=
       {| ErrorHandler.errors := [];
          ErrorHandler.tolerant := option_set options "tolerant" |};
     Tokenizer.script := scan code options |}.

(** ** The store of objects

    [parse], [parseModule] and [parseScript] write to the [options] object
    the caller passes in.  The caller keeps a reference to that object, so
    the store of objects is threaded through these functions and returned
    with their completion. *)

Definition Ref : Type := positive.
Abbreviation Heap := (gmap positive Obj).

Module Store.

(** The properties of the object at [r]. *)
Definition deref (r : Ref) (h : Heap) : Obj := default ∅ (h !! r).

(** [r.name]. *)
Definition read (r : Ref) (name : string) : M Heap Value :=
  gets (fun h => get_property (deref r h) name).

(** [r.name = v]. *)
Definition write (r : Ref) (name : string) (v : Value) : M Heap unit :=
  modify (fun h => <[r := <[name := v]> (deref r h)]> h).

(** [{}]: a new object, at a reference not in use. *)
Definition alloc : M Heap Ref := fun h =>
  let r := fresh (dom h) in (Normal r, <[r := ∅]> h).

End Store.

(** ** [src/esprima.ts] *)

Module Esprima.

Section Parse.

(** The parser, its JSX variant and the comment handler are imported
    classes.  [Node], [Metadata], [Program] and [Comment] are the values
    they exchange with [parse]. *)
Context {Node Metadata Program Comment : Type}.

(** What a call of [parser.parseScript()] or [parser.parseModule()]
    does: it completes nodes, reporting each to the delegate it was
    given, and then returns the program or raises. *)
Record Parsing := {
  completed : list (Node * Metadata);
  outcome : Error + Program
}.

(** A parser after construction: the two fields of [parser.config]
    that [parse] reads, the two entry points, and [parser.tokens] and
    [parser.errorHandler.errors] as they stand after parsing. *)
Record Parser := {
  config_tokens : bool;
  config_tolerant : bool;
  run_parseScript : Parsing;
  run_parseModule : Parsing;
  parser_tokens : list Token;
  parser_errors : list Error
}.

(** The program [parse] returns, with the properties it attaches. *)
Record Ast := {
  program : Program;
  comments : option (list Comment);
  ast_tokens : option (list Token);
  ast_errors : option (list Error)
}.

(** A caller-supplied node delegate: it returns, or raises. *)
Definition Visitor : Type := Node -> Metadata -> option Error.

(** The imported classes.  [new Parser(code, options, delegate)] and
    [new JSXParser(...)] are functions of the source text, of the properties
    of [options] at that moment ([None] when [options] is missing) and of
    whether a delegate is passed.  The comment handler is its state,
    [new CommentHandler()], the assignment to [attach], [visit] and the
    [comments] it has collected. *)
Record Imports := {
  new_Parser : string -> option Obj -> bool -> Parser;
  new_JSXParser : string -> option Obj -> bool -> Parser;
  CommentHandler : Type;
  new_CommentHandler : CommentHandler;
  set_attach : bool -> CommentHandler -> CommentHandler;
  visit : Node -> Metadata -> CommentHandler -> CommentHandler;
  collected : CommentHandler -> list Comment
}.

Variable imports : Imports.

(** [proxyDelegate(node, metadata)], as a step on the comment handler. *)
Definition proxyDelegate (delegate : option Visitor)
    (node : Node) (metadata : Metadata)
    (commentHandler : option (CommentHandler imports))
    : Completion (option (CommentHandler imports)) :=
  match (match delegate with
         | Some d => d node metadata
         | None => None
         end) with
  | Some e => Throw e
  | None => Normal (visit imports node metadata <$> commentHandler)
  end.

(** The parser runs and calls its delegate, when it has one, at every
    node it completes. *)
Fixpoint deliver (delegate : option Visitor) (nodes : list (Node * Metadata))
    (commentHandler : option (CommentHandler imports))
    : Completion (option (CommentHandler imports)) :=
  match nodes with
  | [] => Normal commentHandler
  | (node, metadata) :: rest =>
      match proxyDelegate delegate node metadata commentHandler with
      | Normal commentHandler' => deliver delegate rest commentHandler'
      | other => other
      end
  end.

Definition lift {A} (c : Completion A) : M Heap A := fun h => (c, h).

Definition parse (code : string) (options : option Ref)
    (delegate : option Visitor) : M Heap Ast :=
  let parserDelegate := bool_decide (is_Some delegate) in
  '(collectComment, commentHandler, parserDelegate) ←
    match options with
    | Some options =>
        comment ← Store.read options "comment";
        let collectComment := is_true comment in
        attach ← Store.read options "attachComment";
        let attachComment := is_true attach in
        if collectComment || attachComment then
          let commentHandler :=
        set_attach imports attachComment (new_CommentHandler imports) in
          Store.write options "comment" (VBool true) ;;
          mret (collectComment, Some commentHandler, true)
        else mret (collectComment, None, parserDelegate)
    | None => mret (false, None, parserDelegate)
    end;
  isModule ←
    match options with
    | Some options =>
        sourceType ← Store.read options "sourceType";
        mret match sourceType with
             | VString s => String.eqb s "module"
             | _ => false
             end
    | None => mret false
    end;
  jsx ←
    match options with
    | Some options => jsx ← Store.read options "jsx"; mret (is_true jsx)
    | None => mret false
    end;
  properties ←
    match options with
    | Some options => o ← gets (Store.deref options); mret (Some o)
    | None => mret None
    end;
  let parser :=
    if (jsx : bool) then new_JSXParser imports code properties parserDelegate
    else new_Parser imports code properties parserDelegate in
  let parsing :=
    if (isModule : bool) then run_parseModule parser else run_parseScript parser in
  commentHandler ←
    lift (if (parserDelegate : bool)
          then deliver delegate (completed parsing) commentHandler
          else Normal commentHandler);
  program ←
    match outcome parsing with
    | inl e => throw e
    | inr program => mret program
    end;
  mret {| program := program;
          comments :=
            if (collectComment : bool) then collected imports <$> commentHandler
          else None;
          ast_tokens :=
            if config_tokens parser then Some (parser_tokens parser) else None;
          ast_errors :=
            if config_tolerant parser then Some (parser_errors parser) else None |}.

Definition parseModule (code : string) (options : option Ref)
    (delegate : option Visitor) : M Heap Ast :=
  parsingOptions ←
    match options with
    | Some options => mret options
    | None => Store.alloc
    end;
  Store.write parsingOptions "sourceType" (VString "module") ;;
  parse code (Some parsingOptions) delegate.

Definition parseScript (code : string) (options : option Ref)
    (delegate : option Visitor) : M Heap Ast :=
  parsingOptions ←
    match options with
    | Some options => mret options
    | None => Store.alloc
    end;
  Store.write parsingOptions "sourceType" (VString "script") ;;
  parse code (Some parsingOptions) delegate.

End Parse.

(** The locals of [tokenize] and [tokenizeC] that change while they run.
    ([tokenizeC] also declares [new_tokens], which it never touches.) *)
Record Locals := {
  tokenizer : Tokenizer.t Token;
  tokens : Array.t Value
}.

Definition getNextToken : M Locals (option Token) := fun l =>
  let (c, tk) := Tokenizer.getNextToken (tokenizer l) in
  (c, {| tokenizer := tk; tokens := tokens l |}).

Definition push (v : Value) : M Locals unit :=
  modify (fun l => {| tokenizer := tokenizer l; tokens := Array.push v (tokens l) |}).

Definition call (delegate : Delegate) (token : Token) : M Locals Value :=
  match delegate token with
  | Returns v => mret v
  | Raises e => throw e
  end.

(** [tokenizer.errorHandler.tolerate(e)]. *)
Definition tolerate (e : Error) : M Locals unit := fun l =>
  let (c, h) := ErrorHandler.tolerate e (Tokenizer.errorHandler (tokenizer l)) in
  (c, {| tokenizer := {| Tokenizer.errorHandler := h;
                         Tokenizer.script := Tokenizer.script (tokenizer l) |};
         tokens := tokens l |}).

(** [if (tokenizer.errorHandler.tolerant) tokens.errors = tokenizer.errors()]. *)
Definition attach_errors : M Locals unit := fun l =>
  if ErrorHandler.tolerant (Tokenizer.errorHandler (tokenizer l))
  then (Normal tt, {| tokenizer := tokenizer l;
                      tokens := Array.set_errors (Tokenizer.errors (tokenizer l)) (tokens l) |})
  else (Normal tt, l).

(** Every pass through either loop takes at least one event off the
    script or leaves the loop, so this many passes are never used up. *)
Definition bound (tk : Tokenizer.t Token) : nat :=
  S (List.length (Tokenizer.script tk)).

Definition run (m : M Locals (Array.t Value)) (tk : Tokenizer.t Token)
    : Completion (Array.t Value) :=
  fst (m {| tokenizer := tk; tokens := Array.empty |}).

Section WithScanner.

Variable scan : string -> option Obj -> list (Tokenizer.Event Token).

Definition tokenize (code : string) (options : option Obj)
    (delegate : option Delegate) : Completion (Array.t Value) :=
  let tk := new_tokenizer scan code options in
  run (try_catch
         (while_true (bound tk)
            (token ← getNextToken;
             match token with
             | None => mret Break
             | Some token =>
                 token ← match delegate with
                         | Some d => call d token
                         | None => mret (VToken token)
                         end;
                 push token ;;
                 mret Continue
             end))
         tolerate ;;
       attach_errors ;;
       gets tokens) tk.

(** The callback of both [forEach] calls of [tokenizeC]. *)
Definition push_piece (type : string) (element : string) : M Locals unit :=
  let element :=
    if String.eqb (JSString.substring element 0 1) quote
       || String.eqb (JSString.substring element 0 1) dquote
    then JSString.slice element 1 (JSString.length element - 1)
    else element in
  push (VToken {| type := type; value := element |}).

Definition tokenizeC (code : string) (options : option Obj)
    (delegate : option Delegate) : Completion (Array.t Value) :=
  let tk := new_tokenizer scan code options in
  run (try_catch
         (while_true (bound tk)
            (token ← getNextToken;
             match token with
             | None => mret Break
             | Some token =>
                 if String.eqb (value token) EmptyString
                    || (negb (String.eqb (type token) "Identifier")
                        && negb (String.eqb (type token) "Template")
                        && negb (String.eqb (type token) "String"))
                 then mret Break
                 else
                   let value := value token in
                   let type := type token in
                   if String.eqb type "String" then
                     let unwrappedString :=
                       JSString.slice value 1 (JSString.length value - 1) in
                     let split_arr := JSString.split " " unwrappedString in
                     forEach split_arr (push_piece type) ;;
                     mret Break
                   else if String.eqb type "Template" then
                     let len := JSString.length value in
                     let isOpenedTemplate :=
                       bool_decide (JSString.index value 0 = Some backtick) in
                     let isClosedTemplate :=
                       bool_decide (JSString.index value (len - 1) = Some backtick) in
                     let unwrappedTemplate :=
                       JSString.slice value
                         (if isOpenedTemplate then 1 else 0)
                         (if isClosedTemplate then len - 1 else len) in
                     let split_arr := JSString.split " " unwrappedTemplate in
                     forEach split_arr (push_piece type) ;;
                     mret Break
                   else
                     token ← match delegate with
                             | Some d => call d token
                             | None => mret (VToken token)
                             end;
                     push token ;;
                     mret Continue
             end))
         tolerate ;;
       attach_errors ;;
       gets tokens) tk.

End WithScanner.

End Esprima.

(** ** The second copy of the file: [html_tags], [isHTML] and [tokenizeC]

    Its [parse], [parseModule], [parseScript] and [tokenize] have the same
    text as those of [src/esprima.ts]. *)

Module Custom.

Definition html_tags : list string := [
  "a"; "abbr"; "address"; "area"; "article"; "aside"; "audio"; "b"; "base";
  "bb"; "bdo"; "blockquote"; "body"; "br"; "button"; "canvas"; "caption";
  "cite"; "code"; "col"; "colgroup"; "command"; "datagrid"; "datalist";
  "dd"; "del"; "details"; "dfn"; "dialog"; "div"; "dl"; "dt"; "em"; "embed";
  "eventsource"; "fieldset"; "figcaption"; "figure"; "footer"; "form"; "h1";
  "h2"; "h3"; "h4"; "h5"; "h6"; "head"; "header"; "hgroup"; "hr"; "html";
  "i"; "iframe"; "img"; "input"; "ins"; "kbd"; "label"; "legend"; "li";
  "link"; "map"; "mark"; "menu"; "meter"; "nav"; "noscript"; "object"; "ol";
  "optgroup"; "option"; "output"; "p"; "param"; "pre"; "progress"; "q";
  "rp"; "rt"; "ruby"; "s"; "samp"; "section"; "select"; "small"; "source";
  "span"; "strong"; "sub"; "sup"; "table"; "tbody"; "td"; "textarea";
  "tfoot"; "th"; "thead"; "time"; "title"; "tr"; "track"; "u"; "ul"; "var";
  "video"; "wbr" ].

(** The template literal of [isHTML] has two chunks around one
    substitution.  They are written here as they stand in the file, and
    [pattern] takes their cooked values. *)
Definition chunk_before : string := "<\/?".
Definition chunk_after : string := "[\s\S]*>".

Definition pattern (valid_html_tags : string) : option string :=
  before ← JSString.cooked chunk_before;
  after ← JSString.cooked chunk_after;
  Some (before +:+ valid_html_tags +:+ after).

(** [isHTML(str)].  The constructor does not fail on this pattern (see
    [regex_built] below), so the last branches are never taken. *)
Definition isHTML (str : string) : bool :=
  let valid_html_tags := JSString.join "|" html_tags in
  match pattern valid_html_tags with
  | Some p =>
      match RegExp.new p "i" with
      | Some regex => RegExp.test regex str
      | None => false
      end
  | None => false
  end.

(** What [CustomTokenizer.getNextToken] delivers: an object without
    properties, the one for which [Object.keys(token).length === 0] holds
    and which [tokenizeC] skips, or a token. *)
Inductive Item := EmptyObject | Tok (t : Token).

Record Locals := {
  tokenizer : Tokenizer.t Item;
  tokens : Array.t string;
  html_tokens : list string
}.

(** The object [tokenizeC] returns, [{tokens, html_tokens}]. *)
Record Classified := {
  result_tokens : Array.t string;
  result_html_tokens : list string
}.

Definition has_property (name : string) (c : Classified) : bool :=
  String.eqb name "tokens" || String.eqb name "html_tokens".

Definition getNextToken : M Locals (option Item) := fun l =>
  let (c, tk) := Tokenizer.getNextToken (tokenizer l) in
  (c, {| tokenizer := tk; tokens := tokens l; html_tokens := html_tokens l |}).

(** [tokens.push(x)]. *)
Definition push (x : string) : M Locals unit :=
  modify (fun l => {| tokenizer := tokenizer l;
                      tokens := Array.push x (tokens l);
                      html_tokens := html_tokens l |}).

(** [html_tokens.push(x)]. *)
Definition push_html (x : string) : M Locals unit :=
  modify (fun l => {| tokenizer := tokenizer l;
                      tokens := tokens l;
                      html_tokens := html_tokens l ++ [x] |}).

Definition call (delegate : Delegate) (token : Token) : M Locals Value :=
  match delegate token with
  | Returns v => mret v
  | Raises e => throw e
  end.

(** [tokenizer.errorHandler.tolerate(e)]. *)
Definition tolerate (e : Error) : M Locals unit := fun l =>
  let (c, h) := ErrorHandler.tolerate e (Tokenizer.errorHandler (tokenizer l)) in
  (c, {| tokenizer := {| Tokenizer.errorHandler := h;
                         Tokenizer.script := Tokenizer.script (tokenizer l) |};
         tokens := tokens l;
         html_tokens := html_tokens l |}).

(** [if (tokenizer.errorHandler.tolerant) tokens.errors = tokenizer.errors()]. *)
Definition attach_errors : M Locals unit := fun l =>
  if ErrorHandler.tolerant (Tokenizer.errorHandler (tokenizer l))
  then (Normal tt, {| tokenizer := tokenizer l;
                      tokens := Array.set_errors (Tokenizer.errors (tokenizer l)) (tokens l);
                      html_tokens := html_tokens l |})
  else (Normal tt, l).

Definition bound (tk : Tokenizer.t Item) : nat :=
  S (List.length (Tokenizer.script tk)).

Definition run (m : M Locals Classified) (tk : Tokenizer.t Item)
    : Completion Classified :=
  fst (m {| tokenizer := tk; tokens := Array.empty; html_tokens := [] |}).

(** The callback of the [forEach] call in the [String] branch. *)
Definition push_string_piece (element : string) : M Locals unit :=
  let element :=
    if String.eqb (JSString.substring element 0 1) quote
       || String.eqb (JSString.substring element 0 1) dquote
    then JSString.slice element 1 (JSString.length element - 1)
    else element in
  let element :=
    if String.eqb (JSString.substring element 0 1) "."
       || String.eqb (JSString.substring element 0 1) "#"
    then JSString.slice element 1 (JSString.length element)
    else element in
  push element.

(** The callback of the [forEach] call in the [Template] branch. *)
Definition push_template_piece (element : string) : M Locals unit :=
  let element :=
    if String.eqb (JSString.substring element 0 1) quote
       || String.eqb (JSString.substring element 0 1) dquote
    then JSString.slice element 1 (JSString.length element - 1)
    else element in
  push element.

Section WithScanner.

Variable scan : string -> option Obj -> list (Tokenizer.Event Item).

Definition tokenizeC (code : string) (options : option Obj)
    (delegate : option Delegate) : Completion Classified :=
  let tk := new_tokenizer scan code options in
  run (try_catch
         (while_true (bound tk)
            (token ← getNextToken;
             match token with
             | None => mret Break
             | Some EmptyObject => mret Continue
             | Some (Tok token) =>
                 let value := value token in
                 let type := type token in
                 if String.eqb type "String" then
                   let unwrappedString :=
                     JSString.slice value 1 (JSString.length value - 1) in
                   if isHTML unwrappedString then
                     push_html unwrappedString ;;
                     mret Continue
                   else
                     let split_arr := JSString.split " " unwrappedString in
                     forEach split_arr push_string_piece ;;
                     mret Continue
                 else if String.eqb type "Template" then
                   let len := JSString.length value in
                   let isOpenedTemplate :=
                     bool_decide (JSString.index value 0 = Some backtick) in
                   let isClosedTemplate :=
                     bool_decide (JSString.index value (len - 1) = Some backtick) in
                   let unwrappedTemplate :=
                     JSString.slice value
                       (if isOpenedTemplate then 1 else 0)
                       (if isClosedTemplate then len - 1 else len) in
                   if isHTML unwrappedTemplate then
                     push_html unwrappedTemplate ;;
                     mret Continue
                   else
                     let split_arr := JSString.split " " unwrappedTemplate in
                     forEach split_arr push_template_piece ;;
                     mret Continue
                 else
                   _ ← match delegate with
                       | Some d => call d token
                       | None => mret (VToken token)
                       end;
                   push value ;;
                   mret Continue
             end))
         tolerate ;;
       attach_errors ;;
       l ← gets id;
       mret {| result_tokens := tokens l; result_html_tokens := html_tokens l |}) tk.

End WithScanner.

End Custom.

(** ** The loops, as recursions on the script

    Each [while (true)] loop above reads the tokenizer through
    [getNextToken] only, so what it does is a recursion on the script of the
    tokenizer.  These are the descriptions the theorems are proved through;
    the lemmas [Esprima_tokenize_loop], [Esprima_tokenizeC_loop] and
    [Custom_tokenizeC_loop] show that the loops compute them. *)

(** The piece a [forEach] callback pushes: first and last unit dropped when
    the piece starts with a quote. *)
Definition strip_quotes (element : string) : string :=
  if String.eqb (JSString.substring element 0 1) quote
     || String.eqb (JSString.substring element 0 1) dquote
  then JSString.slice element 1 (JSString.length element - 1)
  else element.

(** First unit dropped when the piece starts with [.] or [#]. *)
Definition strip_selector (element : string) : string :=
  if String.eqb (JSString.substring element 0 1) "."
     || String.eqb (JSString.substring element 0 1) "#"
  then JSString.slice element 1 (JSString.length element)
  else element.

Definition unwrap_string (value : string) : string :=
  JSString.slice value 1 (JSString.length value - 1).

Definition unwrap_template (value : string) : string :=
  let len := JSString.length value in
  JSString.slice value
    (if bool_decide (JSString.index value 0 = Some backtick) then 1 else 0)
    (if bool_decide (JSString.index value (len - 1) = Some backtick)
     then len - 1 else len).

Definition push_all {A} (xs : list A) (a : Array.t A) : Array.t A :=
  {| Array.elements := Array.elements a ++ xs; Array.errors := Array.errors a |}.

(** A script on which the tokenizer delivers the given items and raises
    nothing: a token stream. *)
Definition quiet {I} (items : list I) : list (Tokenizer.Event I) :=
  map Tokenizer.Yields items.

(** A delegate that returns on every token. *)
Definition returning (f : Token -> Value) : Delegate := fun t => Returns (f t).

(** The error a delegate call raises, if any. *)
Definition raised (r : Returned) : option Error :=
  match r with
  | Raises e => Some e
  | Returns _ => None
  end.

Module CustomLoop.

(** What one token adds to [tokens] and to [html_tokens], or the error
    the delegate raises on it. *)
Definition after_token (delegate : option Delegate) (t : Token)
    : Error + (list string * list string) :=
  if String.eqb (type t) "String" then
    let u := unwrap_string (value t) in
    if Custom.isHTML u then inr ([], [u])
    else inr (map (fun e => strip_selector (strip_quotes e)) (JSString.split " " u), [])
  else if String.eqb (type t) "Template" then
    let u := unwrap_template (value t) in
    if Custom.isHTML u then inr ([], [u])
    else inr (map strip_quotes (JSString.split " " u), [])
  else
    match delegate with
    | Some d =>
        match d t with
        | Raises e => inl e
        | Returns _ => inr ([value t], [])
        end
    | None => inr ([value t], [])
    end.

(** The same when no delegate raises: the plain tokens and the markup
    fragments of one delivered item. *)
Definition classify (item : Custom.Item) : list string * list string :=
  match item with
  | Custom.EmptyObject => ([], [])
  | Custom.Tok t =>
      match after_token None t with
      | inr r => r
      | inl _ => ([], [])
      end
  end.

Definition plain (items : list Custom.Item) : list string :=
  flat_map (fun item => fst (classify item)) items.

Definition markup (items : list Custom.Item) : list string :=
  flat_map (fun item => snd (classify item)) items.

Definition locals (h : ErrorHandler.t) (events : list (Tokenizer.Event Custom.Item))
    (tokens : Array.t string) (html : list string) : Custom.Locals :=
  {| Custom.tokenizer := {| Tokenizer.errorHandler := h; Tokenizer.script := events |};
     Custom.tokens := tokens;
     Custom.html_tokens := html |}.

Fixpoint loop (delegate : option Delegate) (h : ErrorHandler.t)
    (events : list (Tokenizer.Event Custom.Item))
    (tokens : Array.t string) (html : list string)
    : Completion unit * Custom.Locals :=
  match events with
  | [] => (Normal tt, locals h [] tokens html)
  | Tokenizer.Yields Custom.EmptyObject :: rest => loop delegate h rest tokens html
  | Tokenizer.Yields (Custom.Tok t) :: rest =>
      match after_token delegate t with
      | inr (words, fragments) =>
          loop delegate h rest (push_all words tokens) (html ++ fragments)
      | inl e => (Throw e, locals h rest tokens html)
      end
  | Tokenizer.Tolerates e :: rest =>
      if ErrorHandler.tolerant h
      then loop delegate (ErrorHandler.recordError e h) rest tokens html
      else (Throw e, locals h rest tokens html)
  | Tokenizer.Throws e :: rest => (Throw e, locals h rest tokens html)
  end.

(** The statements after the loop: the [catch] clause, the [errors]
    property, the returned object. *)
Definition finish (r : Completion unit * Custom.Locals) : Completion Custom.Classified :=
  let h := Tokenizer.errorHandler (Custom.tokenizer (snd r)) in
  let tokens := Custom.tokens (snd r) in
  let html := Custom.html_tokens (snd r) in
  match fst r with
  | Normal _ =>
      Normal {| Custom.result_tokens :=
                  if ErrorHandler.tolerant h
                  then Array.set_errors (ErrorHandler.errors h) tokens else tokens;
                Custom.result_html_tokens := html |}
  | Throw e =>
      if ErrorHandler.tolerant h
      then Normal {| Custom.result_tokens :=
                       Array.set_errors (ErrorHandler.errors h ++ [e]) tokens;
                     Custom.result_html_tokens := html |}
      else Throw e
  | OutOfFuel => OutOfFuel
  end.

End CustomLoop.

Module EsprimaLoop.

Definition locals (h : ErrorHandler.t) (events : list (Tokenizer.Event Token))
    (tokens : Array.t Value) : Esprima.Locals :=
  {| Esprima.tokenizer := {| Tokenizer.errorHandler := h; Tokenizer.script := events |};
     Esprima.tokens := tokens |}.

(** The value pushed for a token that goes through the delegate, or the
    error the delegate raises on it. *)
Definition transformed (delegate : option Delegate) (t : Token) : Error + Value :=
  match delegate with
  | Some d =>
      match d t with
      | Raises e => inl e
      | Returns v => inr v
      end
  | None => inr (VToken t)
  end.

Fixpoint tokenize_loop (delegate : option Delegate) (h : ErrorHandler.t)
    (events : list (Tokenizer.Event Token)) (tokens : Array.t Value)
    : Completion unit * Esprima.Locals :=
  match events with
  | [] => (Normal tt, locals h [] tokens)
  | Tokenizer.Yields t :: rest =>
      match transformed delegate t with
      | inr v => tokenize_loop delegate h rest (Array.push v tokens)
      | inl e => (Throw e, locals h rest tokens)
      end
  | Tokenizer.Tolerates e :: rest =>
      if ErrorHandler.tolerant h
      then tokenize_loop delegate (ErrorHandler.recordError e h) rest tokens
      else (Throw e, locals h rest tokens)
  | Tokenizer.Throws e :: rest => (Throw e, locals h rest tokens)
  end.

(** The condition of the first [break] of [tokenizeC]: an empty value, or
    a type outside identifier, template and string. *)
Definition stops (t : Token) : bool :=
  String.eqb (value t) EmptyString
  || (negb (String.eqb (type t) "Identifier")
      && negb (String.eqb (type t) "Template")
      && negb (String.eqb (type t) "String")).

(** The entries a literal of type [type] with unwrapped text [u] adds. *)
Definition pieces (type : string) (u : string) : list Value :=
  map (fun e => VToken {| type := type; value := strip_quotes e |})
      (JSString.split " " u).

Fixpoint tokenizeC_loop (delegate : option Delegate) (h : ErrorHandler.t)
    (events : list (Tokenizer.Event Token)) (tokens : Array.t Value)
    : Completion unit * Esprima.Locals :=
  match events with
  | [] => (Normal tt, locals h [] tokens)
  | Tokenizer.Yields t :: rest =>
      if stops t then (Normal tt, locals h rest tokens)
      else if String.eqb (type t) "String" then
        (Normal tt,
         locals h rest (push_all (pieces (type t) (unwrap_string (value t))) tokens))
      else if String.eqb (type t) "Template" then
        (Normal tt,
         locals h rest (push_all (pieces (type t) (unwrap_template (value t))) tokens))
      else
        match transformed delegate t with
        | inr v => tokenizeC_loop delegate h rest (Array.push v tokens)
        | inl e => (Throw e, locals h rest tokens)
        end
  | Tokenizer.Tolerates e :: rest =>
      if ErrorHandler.tolerant h
      then tokenizeC_loop delegate (ErrorHandler.recordError e h) rest tokens
      else (Throw e, locals h rest tokens)
  | Tokenizer.Throws e :: rest => (Throw e, locals h rest tokens)
  end.

(** The entries [tokenizeC] pushes on a token stream when the delegate
    returns: the identifiers up to the first literal, then the pieces of
    that literal; nothing from the first token that [stops] onwards. *)
Fixpoint entries (delegate : option (Token -> Value)) (items : list Token)
    : list Value :=
  match items with
  | [] => []
  | t :: rest =>
      if stops t then []
      else if String.eqb (type t) "String" then
        pieces (type t) (unwrap_string (value t))
      else if String.eqb (type t) "Template" then
        pieces (type t) (unwrap_template (value t))
      else
        match delegate with
        | Some f => f t
        | None => VToken t
        end :: entries delegate rest
  end.

(** The statements after either loop: the [catch] clause, the [errors]
    property, the returned array. *)
Definition finish (r : Completion unit * Esprima.Locals) : Completion (Array.t Value) :=
  let h := Tokenizer.errorHandler (Esprima.tokenizer (snd r)) in
  let tokens := Esprima.tokens (snd r) in
  match fst r with
  | Normal _ =>
      Normal (if ErrorHandler.tolerant h
              then Array.set_errors (ErrorHandler.errors h) tokens else tokens)
  | Throw e =>
      if ErrorHandler.tolerant h
      then Normal (Array.set_errors (ErrorHandler.errors h ++ [e]) tokens)
      else Throw e
  | OutOfFuel => OutOfFuel
  end.

End EsprimaLoop.

(** Where a loop leaves the locals: the mode of the error handler is the
    one it started with, the array has the [errors] property it started
    with, and the loop was not cut off. *)
Definition settled_E (h : ErrorHandler.t) (tokens : Array.t Value)
    (r : Completion unit * Esprima.Locals) : Prop :=
  ErrorHandler.tolerant (Tokenizer.errorHandler (Esprima.tokenizer (snd r)))
    = ErrorHandler.tolerant h
  /\ Array.errors (Esprima.tokens (snd r)) = Array.errors tokens
  /\ fst r <> OutOfFuel.

Definition settled_C (h : ErrorHandler.t) (tokens : Array.t string)
    (r : Completion unit * Custom.Locals) : Prop :=
  ErrorHandler.tolerant (Tokenizer.errorHandler (Custom.tokenizer (snd r)))
    = ErrorHandler.tolerant h
  /\ Array.errors (Custom.tokens (snd r)) = Array.errors tokens
  /\ fst r <> OutOfFuel.

(** ** Comparing the two files *)

(** The [value] property of an entry of the array [src/esprima.ts] returns. *)
Definition entry_value (v : Value) : option string :=
  match v with
  | VToken t => Some (value t)
  | _ => None
  end.

(** The plain tokens either [tokenizeC] returns, as strings. *)
Definition plain_of_Esprima (c : Completion (Array.t Value)) : option (list string) :=
  match c with
  | Normal a => Some (omap entry_value (Array.elements a))
  | _ => None
  end.

Definition plain_of_Custom (c : Completion Custom.Classified) : option (list string) :=
  match c with
  | Normal r => Some (Array.elements (Custom.result_tokens r))
  | _ => None
  end.

(** A token of the identifier, template and string set. *)
Definition in_literal_set (t : Token) : bool :=
  String.eqb (type t) "Identifier"
  || String.eqb (type t) "Template"
  || String.eqb (type t) "String".

(** The regular expression [isHTML] builds, computed once. *)
Definition html_regex : RegExp.t :=
  Eval vm_compute in
    match Custom.pattern (JSString.join "|" Custom.html_tags) with
    | Some p =>
        match RegExp.new p "i" with
        | Some regex => regex
        | None => {| RegExp.disjunction := []; RegExp.ignoreCase := true |}
        end
    | None => {| RegExp.disjunction := []; RegExp.ignoreCase := true |}
    end.

(** ** The options object under [parse] *)

(** Whether [parse] sets up a comment handler for these options. *)
Definition handles_comments (o : Obj) : bool :=
  is_true (get_property o "comment") || is_true (get_property o "attachComment").

(** A computation that leaves the store as it finds it. *)
Definition read_only {A} (m : M Heap A) : Prop :=
  forall h, snd (m h) = h.

(** The test [parse] makes on [options.sourceType]. *)
Definition is_module (o : Obj) : bool :=
  match get_property o "sourceType" with
  | VString s => String.eqb s "module"
  | _ => false
  end.

(** [parse] with [options.sourceType] forced, in the words of the
    specification: the options are the caller's object, or a new object when
    the caller passes none; their [sourceType] is set to the given one;
    [parse] runs on them. *)
Definition parse_with_sourceType {Node Metadata Program Comment : Type}
    (imports : @Esprima.Imports Node Metadata Program Comment)
    (sourceType : string) (code : string) (options : option Ref)
    (delegate : option Esprima.Visitor) : M Heap Esprima.Ast :=
  fun h =>
    let r := match options with
             | Some r => r
             | None => fresh (dom h)
             end in
    Esprima.parse imports code (Some r) delegate
      (<[r := <["sourceType" := VString sourceType]> (Store.deref r h)]> h).

(** A stand-in for the imported classes, for the examples: a parser that
    completes no node and returns the program [tt], and a comment handler
    without state. *)
Definition idle_parser : @Esprima.Parser unit unit unit :=
  {| Esprima.config_tokens := false;
     Esprima.config_tolerant := false;
     Esprima.run_parseScript := {| Esprima.completed := []; Esprima.outcome := inr tt |};
     Esprima.run_parseModule := {| Esprima.completed := []; Esprima.outcome := inr tt |};
     Esprima.parser_tokens := [];
     Esprima.parser_errors := [] |}.

Definition idle_imports : @Esprima.Imports unit unit unit unit :=
  {| Esprima.new_Parser := fun _ _ _ => idle_parser;
     Esprima.new_JSXParser := fun _ _ _ => idle_parser;
     Esprima.CommentHandler := unit;
     Esprima.new_CommentHandler := tt;
     Esprima.set_attach := fun _ _ => tt;
     Esprima.visit := fun _ _ _ => tt;
     Esprima.collected := fun _ => [] |}.

(** ** Scripts with errors *)

(** The items a script delivers up to its first raised error. *)
Fixpoint yielded {I} (events : list (Tokenizer.Event I)) : list I :=
  match events with
  | [] => []
  | Tokenizer.Yields item :: rest => item :: yielded rest
  | Tokenizer.Tolerates _ :: rest => yielded rest
  | Tokenizer.Throws _ :: _ => []
  end.

(** The errors a tolerant run meets, in order: those the tokenizer hands to
    its error handler, up to and with the first it raises. *)
Fixpoint recorded {I} (events : list (Tokenizer.Event I)) : list Error :=
  match events with
  | [] => []
  | Tokenizer.Yields _ :: rest => recorded rest
  | Tokenizer.Tolerates e :: rest => e :: recorded rest
  | Tokenizer.Throws e :: _ => [e]
  end.

(** The items a strict run gets before the first error of either kind, and
    that error. *)
Fixpoint before_error {I} (events : list (Tokenizer.Event I)) : list I :=
  match events with
  | [] => []
  | Tokenizer.Yields item :: rest => item :: before_error rest
  | Tokenizer.Tolerates _ :: _ => []
  | Tokenizer.Throws _ :: _ => []
  end.

Fixpoint first_error {I} (events : list (Tokenizer.Event I)) : option Error :=
  match events with
  | [] => None
  | Tokenizer.Yields _ :: rest => first_error rest
  | Tokenizer.Tolerates e :: _ => Some e
  | Tokenizer.Throws e :: _ => Some e
  end.

(** The entry [tokenize] pushes for a token when the delegate returns. *)
Definition pushed (f : option (Token -> Value)) (t : Token) : Value :=
  match f with
  | Some f => f t
  | None => VToken t
  end.

(** The script as the loop of [tokenize] meets it behind the delegate call
    [token = delegate(token)], which sits inside the [try] block: a token the
    delegate returns on is delivered as the returned value, and a token it
    raises on ends the script with the raised error, as a lexical error
    does. *)
Fixpoint through (delegate : option Delegate) (events : list (Tokenizer.Event Token))
    : list (Tokenizer.Event Value) :=
  match events with
  | [] => []
  | Tokenizer.Yields t :: rest =>
      match EsprimaLoop.transformed delegate t with
      | inr v => Tokenizer.Yields v :: through delegate rest
      | inl e => [Tokenizer.Throws e]
      end
  | Tokenizer.Tolerates e :: rest => Tokenizer.Tolerates e :: through delegate rest
  | Tokenizer.Throws e :: _ => [Tokenizer.Throws e]
  end.

(** ** Literals and their pieces *)

(** The unwrapped text of a string or template literal token. *)
Definition unwrap (t : Token) : string :=
  if String.eqb (type t) "String" then unwrap_string (value t)
  else unwrap_template (value t).

(** How often a code unit occurs in a string. *)
Fixpoint occurrences (c : ascii) (s : string) : nat :=
  match s with
  | EmptyString => 0
  | String a rest => (if Ascii.eqb a c then 1 else 0) + occurrences c rest
  end.

(** A token [tokenizeC] of [src/esprima.ts] takes for an identifier and
    goes on from, and one it takes for a literal. *)
Definition is_identifier (t : Token) : bool :=
  String.eqb (type t) "Identifier" && negb (String.eqb (value t) EmptyString).

Definition is_literal (t : Token) : bool :=
  (String.eqb (type t) "String" || String.eqb (type t) "Template")
  && negb (String.eqb (value t) EmptyString).

(** An item of the second tokenizer that is a token. *)
Definition carries_token (item : Custom.Item) : bool :=
  match item with
  | Custom.Tok _ => true
  | Custom.EmptyObject => false
  end.

(** A template chunk as the tokenizer delivers it: the text [body], with a
    backtick in front when the chunk opens the template and one behind when
    it closes it. *)
Definition template_chunk (opened closed : bool) (body : string) : string :=
  (if opened then String backtick EmptyString else EmptyString)
  +:+ body
  +:+ (if closed then String backtick EmptyString else EmptyString).

(** ** Texts and the markup pattern *)

(** A text with its letters [a] to [z] in upper case. *)
Fixpoint upper (s : string) : string :=
  match s with
  | EmptyString => EmptyString
  | String c rest => String (RegExp.canonicalize true c) (upper rest)
  end.

(** A code unit that is a letter [a-z], [A-Z], or [<]. *)
Definition letter_or_lt (c : ascii) : bool :=
  let n := nat_of_ascii (RegExp.canonicalize true c) in
  ((65 <=? n)%nat && (n <=? 90)%nat) || (n =? 60)%nat.

(** The alternative of a pattern that spells a text out, unit by unit. *)
Definition spelled (text : string) : RegExp.Alternative :=
  map (fun c => (RegExp.PatternCharacter c, RegExp.Once)) (list_ascii_of_string text).

(** The tag names without the first, [a], and the last, [wbr]. *)
Definition inner_tags : list string := removelast (tl Custom.html_tags).

(** An alternative that starts with a letter or with [<], taken once. *)
Definition starts_with_letter_or_lt (alt : RegExp.Alternative) : bool :=
  match alt with
  | (RegExp.PatternCharacter p, RegExp.Once) :: _ => letter_or_lt p
  | _ => false
  end.

(** A test on texts that, once it succeeds on a text, succeeds on every
    text that continues it. *)
Definition extends (k : string -> bool) : Prop :=
  forall s more, k s = true -> k (s +:+ more) = true.

(** ** What [parse] returns, read off the options *)

Section ParseCompletion.

Context {Node Metadata Program Comment : Type}.
Variable imports : @Esprima.Imports Node Metadata Program Comment.

(** The properties the parser is constructed with: those of the caller's
    options, with [comment] set when a comment handler is set up. *)
Definition seen_by_parser (o : Obj) : Obj :=
  if handles_comments o then <["comment" := VBool true]> o else o.

(** Whether the parser is given the proxy delegate. *)
Definition proxied (options : option Obj) (delegate : option (@Esprima.Visitor Node Metadata))
    : bool :=
  match options with
  | Some o => handles_comments o
  | None => false
  end || bool_decide (is_Some delegate).

(** The parser [parse] constructs and the entry point it calls. *)
Definition selected_parser (code : string) (options : option Obj)
    (delegate : option (@Esprima.Visitor Node Metadata))
    : @Esprima.Parser Node Metadata Program :=
  (if option_set (seen_by_parser <$> options) "jsx"
   then Esprima.new_JSXParser imports else Esprima.new_Parser imports)
    code (seen_by_parser <$> options) (proxied options delegate).

Definition selected_parsing (code : string) (options : option Obj)
    (delegate : option (@Esprima.Visitor Node Metadata))
    : @Esprima.Parsing Node Metadata Program :=
  if match seen_by_parser <$> options with
     | Some o => is_module o
     | None => false
     end
  then Esprima.run_parseModule (selected_parser code options delegate)
  else Esprima.run_parseScript (selected_parser code options delegate).

(** The comment handler [parse] starts with, if any. *)
Definition initial_handler (options : option Obj)
    : option (Esprima.CommentHandler imports) :=
  match options with
  | Some o =>
      if handles_comments o
      then Some (Esprima.set_attach imports (is_true (get_property o "attachComment"))
                   (Esprima.new_CommentHandler imports))
      else None
  | None => None
  end.

(** The completion of [parse], as a function of the properties the
    options have when it is called. *)
Definition parse_completion (code : string) (options : option Obj)
    (delegate : option (@Esprima.Visitor Node Metadata))
    : Completion (@Esprima.Ast Program Comment) :=
  let parser := selected_parser code options delegate in
  let parsing := selected_parsing code options delegate in
  match (if proxied options delegate
         then Esprima.deliver imports delegate (Esprima.completed parsing)
                (initial_handler options)
         else Normal (initial_handler options)) with
  | Normal commentHandler =>
      match Esprima.outcome parsing with
      | inl e => Throw e
      | inr program =>
          Normal {| Esprima.program := program;
                    Esprima.comments :=
                      if option_set options "comment"
                      then Esprima.collected imports <$> commentHandler
                      else None;
                    Esprima.ast_tokens :=
                      if Esprima.config_tokens parser
                      then Some (Esprima.parser_tokens parser) else None;
                    Esprima.ast_errors :=
                      if Esprima.config_tolerant parser
                      then Some (Esprima.parser_errors parser) else None |}
      end
  | Throw e => Throw e
  | OutOfFuel => OutOfFuel
  end.

End ParseCompletion.

(** The imported classes with another JSX parser put in. *)
Definition with_JSXParser {Node Metadata Program Comment : Type}
    (jsx : string -> option Obj -> bool -> @Esprima.Parser Node Metadata Program)
    (imports : @Esprima.Imports Node Metadata Program Comment)
    : @Esprima.Imports Node Metadata Program Comment :=
  {| Esprima.new_Parser := Esprima.new_Parser imports;
     Esprima.new_JSXParser := jsx;
     Esprima.CommentHandler := Esprima.CommentHandler imports;
     Esprima.new_CommentHandler := Esprima.new_CommentHandler imports;
     Esprima.set_attach := Esprima.set_attach imports;
     Esprima.visit := Esprima.visit imports;
     Esprima.collected := Esprima.collected imports |}.

(** The program a parser run returns, with the properties [parse] attaches
    when there is no comment handler. *)
Definition plain_result {Node Metadata Program Comment : Type}
    (parser : @Esprima.Parser Node Metadata Program)
    (parsing : @Esprima.Parsing Node Metadata Program)
    : Completion (@Esprima.Ast Program Comment) :=
  match Esprima.outcome parsing with
  | inl e => Throw e
  | inr program =>
      Normal {| Esprima.program := program;
                Esprima.comments := None;
                Esprima.ast_tokens :=
                  if Esprima.config_tokens parser
                  then Some (Esprima.parser_tokens parser) else None;
                Esprima.ast_errors :=
                  if Esprima.config_tolerant parser
                  then Some (Esprima.parser_errors parser) else None |}
  end.

(** * Theorems *)

Section MonadFacts.

Context {S : Type}.

Lemma bind_normal {A B} (m : M S A) (f : A -> M S B) s a s' :
  m s = (Normal a, s') -> (m ≫= f) s = f a s'.
Proof. intros H. unfold mbind, M_bind. now rewrite H. Qed.

Lemma bind_throw {A B} (m : M S A) (f : A -> M S B) s e s' :
  m s = (Throw e, s') -> (m ≫= f) s = (Throw e, s').
Proof. intros H. unfold mbind, M_bind. now rewrite H. Qed.

Lemma while_true_unfold (fuel : nat) (body : M S Signal) s :
  while_true (Datatypes.S fuel) body s =
  match body s with
  | (Normal Continue, s') => while_true fuel body s'
  | (Normal Break, s') => (Normal tt, s')
  | (Throw e, s') => (Throw e, s')
  | (OutOfFuel, s') => (OutOfFuel, s')
  end.
Proof. reflexivity. Qed.

End MonadFacts.

Section CustomFacts.

Import CustomLoop.

Lemma Custom_forEach_push (f : string -> string) (pieces : list string) l :
  forEach pieces (fun element => Custom.push (f element)) l =
  (Normal tt, {| Custom.tokenizer := Custom.tokenizer l;
                 Custom.tokens := push_all (map f pieces) (Custom.tokens l);
                 Custom.html_tokens := Custom.html_tokens l |}).
Proof.
  revert l. induction pieces as [|p pieces IH]; intros [tk [els errs] html].
  - cbn. unfold push_all. cbn. now rewrite app_nil_r.
  - cbn [forEach]. erewrite bind_normal; [|reflexivity].
    rewrite IH. cbn. unfold push_all. cbn. now rewrite <- app_assoc.
Qed.

End CustomFacts.

Section CustomLoopFacts.

Import CustomLoop.

Local Opaque Custom.isHTML JSString.slice JSString.split JSString.substring
  JSString.index JSString.length.

Lemma Custom_tokenizeC_loop scan code options delegate :
  Custom.tokenizeC scan code options delegate =
  finish (loop delegate
            {| ErrorHandler.errors := [];
               ErrorHandler.tolerant := option_set options "tolerant" |}
            (scan code options) Array.empty []).
Proof.
  unfold Custom.tokenizeC, Custom.run.
  match goal with |- context [while_true _ ?b] => set (body := b) end.
  assert (Hloop : forall events fuel h tokens html,
             (List.length events < fuel)%nat ->
             while_true fuel body (locals h events tokens html) =
             loop delegate h events tokens html).
  { induction events as [|ev rest IH]; intros [|fuel] h tokens html Hlt;
      try (cbn in Hlt; lia).
    - reflexivity.
    - cbn in Hlt. assert (Hrest : (List.length rest < fuel)%nat) by lia.
      destruct ev as [[|t]|e|e].
      + rewrite while_true_unfold. cbn [loop].
        rewrite <- (IH fuel h tokens html Hrest). reflexivity.
      + rewrite while_true_unfold. cbn [loop].
        assert (Hbody : body (locals h (Tokenizer.Yields (Custom.Tok t) :: rest) tokens html) =
                        match after_token delegate t with
                        | inr (ws, fs) =>
                            (Normal Continue, locals h rest (push_all ws tokens) (html ++ fs))
                        | inl e => (Throw e, locals h rest tokens html)
                        end).
        { unfold body, after_token.
          erewrite bind_normal; [|reflexivity].
          cbv beta iota. destruct tokens as [els errs].
          destruct (String.eqb (type t) "String").
          - fold (unwrap_string (value t)).
            destruct (Custom.isHTML (unwrap_string (value t))).
            + unfold locals, push_all. cbn [Array.elements Array.errors].
              rewrite app_nil_r. reflexivity.
            + erewrite bind_normal;
                [|exact (Custom_forEach_push
                           (fun e => strip_selector (strip_quotes e)) _ _)].
              unfold locals. cbn. rewrite app_nil_r. reflexivity.
          - destruct (String.eqb (type t) "Template").
            + fold (unwrap_template (value t)).
              destruct (Custom.isHTML (unwrap_template (value t))).
              * unfold locals, push_all. cbn [Array.elements Array.errors].
                rewrite app_nil_r. reflexivity.
              * erewrite bind_normal;
                  [|exact (Custom_forEach_push strip_quotes _ _)].
                unfold locals. cbn. rewrite app_nil_r. reflexivity.
            + destruct delegate as [d|]; [unfold Custom.call; destruct (d t)|];
                unfold locals; cbn; rewrite ?app_nil_r; reflexivity. }
        rewrite Hbody. destruct (after_token delegate t) as [e|[ws fs]].
        * reflexivity.
        * apply IH, Hrest.
      + rewrite while_true_unfold. cbn [loop].
        destruct (ErrorHandler.tolerant h) eqn:Htol.
        * rewrite <- (IH (Datatypes.S fuel) (ErrorHandler.recordError e h) tokens html)
            by lia.
          rewrite while_true_unfold.
          unfold body, mbind, M_bind, Custom.getNextToken, Tokenizer.getNextToken.
          cbn [locals Custom.tokenizer Tokenizer.errorHandler Tokenizer.script
               Tokenizer.run_script].
          unfold ErrorHandler.tolerate. rewrite Htol. reflexivity.
        * unfold body, mbind, M_bind, Custom.getNextToken, Tokenizer.getNextToken.
          cbn [locals Custom.tokenizer Tokenizer.errorHandler Tokenizer.script
               Tokenizer.run_script].
          unfold ErrorHandler.tolerate. rewrite Htol. reflexivity.
      + reflexivity. }
  unfold Custom.bound, new_tokenizer. cbn [Tokenizer.script].
  set (h0 := {| ErrorHandler.errors := []; ErrorHandler.tolerant := _ |}).
  set (events := scan code options).
  change (Custom.Build_Locals _ _ _) with (locals h0 events Array.empty []).
  unfold mbind, M_bind, try_catch. rewrite Hloop by lia.
  unfold finish.
  destruct (loop delegate h0 events Array.empty []) as [[[]|e|] [[h evs] toks html]];
    cbn [fst snd Custom.tokenizer Custom.tokens Custom.html_tokens
         Tokenizer.errorHandler].
  - unfold Custom.attach_errors, gets, mret, M_ret, Tokenizer.errors.
    cbn [Custom.tokenizer Tokenizer.errorHandler].
    destruct (ErrorHandler.tolerant h); reflexivity.
  - unfold Custom.tolerate, ErrorHandler.tolerate.
    cbn [Custom.tokenizer Tokenizer.errorHandler].
    destruct (ErrorHandler.tolerant h) eqn:Htol; [|reflexivity].
    unfold Custom.attach_errors, gets, mret, M_ret, Tokenizer.errors.
    cbn [Custom.tokenizer Tokenizer.errorHandler ErrorHandler.recordError
         ErrorHandler.tolerant ErrorHandler.errors].
    rewrite Htol. reflexivity.
  - reflexivity.
Qed.

End CustomLoopFacts.

Section EsprimaLoopFacts.

Import EsprimaLoop.

Local Opaque JSString.slice JSString.split JSString.substring
  JSString.index JSString.length.

Lemma Esprima_forEach_push (type : string) (pieces : list string) l :
  forEach pieces (Esprima.push_piece type) l =
  (Normal tt,
   {| Esprima.tokenizer := Esprima.tokenizer l;
      Esprima.tokens :=
        push_all (map (fun e => VToken {| type := type; value := strip_quotes e |}) pieces)
                 (Esprima.tokens l) |}).
Proof.
  revert l. induction pieces as [|p pieces IH]; intros [tk [els errs]].
  - cbn. unfold push_all. cbn. now rewrite app_nil_r.
  - cbn [forEach]. erewrite bind_normal; [|reflexivity].
    rewrite IH. cbn. unfold push_all. cbn. now rewrite <- app_assoc.
Qed.

Lemma Esprima_getNextToken_tolerated h e rest tokens :
  ErrorHandler.tolerant h = true ->
  Esprima.getNextToken (locals h (Tokenizer.Tolerates e :: rest) tokens) =
  Esprima.getNextToken (locals (ErrorHandler.recordError e h) rest tokens).
Proof.
  intros Htol. unfold Esprima.getNextToken, Tokenizer.getNextToken.
  cbn [locals Esprima.tokenizer Tokenizer.errorHandler Tokenizer.script
       Tokenizer.run_script].
  unfold ErrorHandler.tolerate. now rewrite Htol.
Qed.

Lemma Esprima_getNextToken_strict h e rest tokens :
  ErrorHandler.tolerant h = false ->
  Esprima.getNextToken (locals h (Tokenizer.Tolerates e :: rest) tokens) =
  (Throw e, locals h rest tokens).
Proof.
  intros Htol. unfold Esprima.getNextToken, Tokenizer.getNextToken.
  cbn [locals Esprima.tokenizer Tokenizer.errorHandler Tokenizer.script
       Tokenizer.run_script].
  unfold ErrorHandler.tolerate. now rewrite Htol.
Qed.

Lemma Esprima_finish (m : M Esprima.Locals unit) l :
  fst ((try_catch m Esprima.tolerate ;; Esprima.attach_errors ;; gets Esprima.tokens) l) =
  finish (m l).
Proof.
  unfold mbind, M_bind, try_catch, finish.
  destruct (m l) as [[[]|e|] [[h evs] toks]];
    cbn [fst snd Esprima.tokenizer Esprima.tokens Tokenizer.errorHandler].
  - unfold Esprima.attach_errors, gets, Tokenizer.errors.
    cbn [Esprima.tokenizer Tokenizer.errorHandler].
    destruct (ErrorHandler.tolerant h); reflexivity.
  - unfold Esprima.tolerate, ErrorHandler.tolerate.
    cbn [Esprima.tokenizer Tokenizer.errorHandler].
    destruct (ErrorHandler.tolerant h) eqn:Htol; [|reflexivity].
    unfold Esprima.attach_errors, gets, Tokenizer.errors.
    cbn [Esprima.tokenizer Tokenizer.errorHandler ErrorHandler.recordError
         ErrorHandler.tolerant ErrorHandler.errors].
    rewrite Htol. reflexivity.
  - reflexivity.
Qed.

Lemma Esprima_tokenize_loop scan code options delegate :
  Esprima.tokenize scan code options delegate =
  finish (tokenize_loop delegate
            {| ErrorHandler.errors := [];
               ErrorHandler.tolerant := option_set options "tolerant" |}
            (scan code options) Array.empty).
Proof.
  unfold Esprima.tokenize, Esprima.run. rewrite Esprima_finish. f_equal.
  match goal with |- context [while_true _ ?b] => set (body := b) end.
  assert (Hloop : forall events fuel h tokens,
             (List.length events < fuel)%nat ->
             while_true fuel body (locals h events tokens) =
             tokenize_loop delegate h events tokens).
  { induction events as [|ev rest IH]; intros [|fuel] h tokens Hlt;
      try (cbn in Hlt; lia).
    - reflexivity.
    - cbn in Hlt. assert (Hrest : (List.length rest < fuel)%nat) by lia.
      rewrite while_true_unfold. cbn [tokenize_loop].
      destruct ev as [t|e|e].
      + assert (Hbody : body (locals h (Tokenizer.Yields t :: rest) tokens) =
                        match transformed delegate t with
                        | inr v => (Normal Continue, locals h rest (Array.push v tokens))
                        | inl e => (Throw e, locals h rest tokens)
                        end).
        { unfold body, transformed.
          erewrite bind_normal; [|reflexivity]. cbv beta iota.
          destruct delegate as [d|]; [unfold Esprima.call; destruct (d t)|];
            reflexivity. }
        rewrite Hbody. destruct (transformed delegate t) as [e|v].
        * reflexivity.
        * apply IH, Hrest.
      + destruct (ErrorHandler.tolerant h) eqn:Htol.
        * rewrite <- (IH (Datatypes.S fuel) (ErrorHandler.recordError e h) tokens)
            by lia.
          rewrite while_true_unfold. unfold body, mbind, M_bind.
          now rewrite Esprima_getNextToken_tolerated.
        * unfold body, mbind, M_bind.
          now rewrite Esprima_getNextToken_strict.
      + reflexivity. }
  unfold Esprima.bound, new_tokenizer. cbn [Tokenizer.script].
  apply Hloop. lia.
Qed.

Lemma Esprima_tokenizeC_loop scan code options delegate :
  Esprima.tokenizeC scan code options delegate =
  finish (tokenizeC_loop delegate
            {| ErrorHandler.errors := [];
               ErrorHandler.tolerant := option_set options "tolerant" |}
            (scan code options) Array.empty).
Proof.
  unfold Esprima.tokenizeC, Esprima.run. rewrite Esprima_finish. f_equal.
  match goal with |- context [while_true _ ?b] => set (body := b) end.
  assert (Hloop : forall events fuel h tokens,
             (List.length events < fuel)%nat ->
             while_true fuel body (locals h events tokens) =
             tokenizeC_loop delegate h events tokens).
  { induction events as [|ev rest IH]; intros [|fuel] h tokens Hlt;
      try (cbn in Hlt; lia).
    - reflexivity.
    - cbn in Hlt. assert (Hrest : (List.length rest < fuel)%nat) by lia.
      rewrite while_true_unfold. cbn [tokenizeC_loop].
      destruct ev as [t|e|e].
      + unfold body at 1. erewrite bind_normal; [|reflexivity]. cbv beta iota.
        fold (stops t). destruct (stops t); [reflexivity|].
        destruct (String.eqb (type t) "String").
        { erewrite bind_normal; [|apply Esprima_forEach_push]. reflexivity. }
        destruct (String.eqb (type t) "Template").
        { erewrite bind_normal; [|apply Esprima_forEach_push]. reflexivity. }
        unfold transformed.
        destruct delegate as [d|]; [unfold Esprima.call; destruct (d t) as [v|e]|].
        * erewrite bind_normal; [|reflexivity].
          erewrite bind_normal; [|reflexivity].
          apply IH, Hrest.
        * reflexivity.
        * erewrite bind_normal; [|reflexivity].
          erewrite bind_normal; [|reflexivity].
          apply IH, Hrest.
      + destruct (ErrorHandler.tolerant h) eqn:Htol.
        * rewrite <- (IH (Datatypes.S fuel) (ErrorHandler.recordError e h) tokens)
            by lia.
          rewrite while_true_unfold. unfold body, mbind, M_bind.
          now rewrite Esprima_getNextToken_tolerated.
        * unfold body, mbind, M_bind.
          now rewrite Esprima_getNextToken_strict.
      + reflexivity. }
  unfold Esprima.bound, new_tokenizer. cbn [Tokenizer.script].
  apply Hloop. lia.
Qed.

End EsprimaLoopFacts.

Section CustomStreams.

Import CustomLoop.

Local Opaque Custom.isHTML JSString.slice JSString.split JSString.substring
  JSString.index JSString.length.

Lemma after_token_returning (f : Token -> Value) (t : Token) :
  after_token (Some (returning f)) t = after_token None t.
Proof.
  unfold after_token, returning.
  destruct (String.eqb (type t) "String"); [reflexivity|].
  destruct (String.eqb (type t) "Template"); reflexivity.
Qed.

Lemma after_token_None (t : Token) :
  after_token None t = inr (classify (Custom.Tok t)).
Proof.
  unfold classify, after_token.
  destruct (String.eqb (type t) "String");
    [destruct (Custom.isHTML _); reflexivity|].
  destruct (String.eqb (type t) "Template");
    [destruct (Custom.isHTML _); reflexivity|reflexivity].
Qed.

(** On a token stream, with a delegate that returns, the loop runs to the
    end and appends what each item contributes, in order. *)
Lemma Custom_loop_quiet (delegate : option (Token -> Value)) items h tokens html :
  loop (returning <$> delegate) h (quiet items) tokens html =
  (Normal tt, locals h [] (push_all (plain items) tokens) (html ++ markup items)).
Proof.
  revert tokens html. induction items as [|item items IH]; intros tokens html.
  - destruct tokens. cbn. unfold push_all. cbn. now rewrite !app_nil_r.
  - cbn [quiet map loop]. destruct item as [|t].
    + apply IH.
    + assert (Hafter : after_token (returning <$> delegate) t
                       = inr (classify (Custom.Tok t))).
      { destruct delegate as [f|]; cbn [fmap option_fmap option_map];
          [rewrite after_token_returning|]; apply after_token_None. }
      rewrite Hafter. destruct (classify (Custom.Tok t)) as [ws fs] eqn:Hc.
      fold (quiet items). rewrite IH.
      unfold plain, markup. cbn [flat_map]. rewrite Hc. cbn [fst snd].
      destruct tokens. unfold push_all. cbn [Array.elements Array.errors].
      now rewrite <- !app_assoc.
Qed.

(** Every fragment in the markup output is a literal [isHTML] accepts. *)
Lemma markup_isHTML items :
  Forall (fun fragment => Custom.isHTML fragment = true) (markup items).
Proof.
  unfold markup. induction items as [|item items IH]; [constructor|].
  cbn [flat_map]. apply Forall_app. split; [|exact IH].
  destruct item as [|t]; [constructor|].
  unfold classify, after_token.
  destruct (String.eqb (type t) "String").
  - destruct (Custom.isHTML _) eqn:H; cbn; [|constructor].
    constructor; [exact H|constructor].
  - destruct (String.eqb (type t) "Template"); [|constructor].
    destruct (Custom.isHTML _) eqn:H; cbn; [|constructor].
    constructor; [exact H|constructor].
Qed.

End CustomStreams.

Section EsprimaStreams.

Import EsprimaLoop.

Local Opaque JSString.slice JSString.split JSString.substring
  JSString.index JSString.length.

Lemma transformed_returning (delegate : option (Token -> Value)) (t : Token) :
  transformed (returning <$> delegate) t =
  inr match delegate with
      | Some f => f t
      | None => VToken t
      end.
Proof. destruct delegate; reflexivity. Qed.

(** On a token stream, with a delegate that returns, the loop of
    [tokenize] runs to the end and pushes one entry per token. *)
Lemma Esprima_tokenize_loop_quiet (delegate : option (Token -> Value)) items h tokens :
  tokenize_loop (returning <$> delegate) h (quiet items) tokens =
  (Normal tt,
   locals h [] (push_all (map (fun t => match delegate with
                                        | Some f => f t
                                        | None => VToken t
                                        end) items) tokens)).
Proof.
  revert tokens. induction items as [|t items IH]; intros tokens.
  - destruct tokens. cbn. unfold push_all. cbn. now rewrite app_nil_r.
  - cbn [quiet map tokenize_loop]. rewrite transformed_returning.
    fold (quiet items). rewrite IH. destruct tokens.
    unfold push_all, Array.push. cbn [Array.elements Array.errors].
    now rewrite <- app_assoc.
Qed.

(** On a token stream, with a delegate that returns, the loop of
    [tokenizeC] leaves normally with the entries of [entries]. *)
Lemma Esprima_tokenizeC_loop_quiet (delegate : option (Token -> Value)) items h tokens :
  exists rest,
    tokenizeC_loop (returning <$> delegate) h (quiet items) tokens =
    (Normal tt, locals h rest (push_all (entries delegate items) tokens)).
Proof.
  revert tokens. induction items as [|t items IH]; intros tokens.
  - exists []. destruct tokens. cbn. unfold push_all. cbn. now rewrite app_nil_r.
  - cbn [quiet map tokenizeC_loop entries]. fold (quiet items).
    destruct (stops t).
    { exists (quiet items). destruct tokens. unfold push_all. cbn.
      now rewrite app_nil_r. }
    destruct (String.eqb (type t) "String"); [now exists (quiet items)|].
    destruct (String.eqb (type t) "Template"); [now exists (quiet items)|].
    rewrite transformed_returning.
    destruct (IH (Array.push match delegate with
                             | Some f => f t
                             | None => VToken t
                             end tokens)) as [rest Hrest].
    exists rest. rewrite Hrest. destruct tokens.
    unfold push_all, Array.push. cbn [Array.elements Array.errors].
    now rewrite <- app_assoc.
Qed.

End EsprimaStreams.

(** ** What the loops preserve *)

Section LoopInvariants.

Local Opaque Custom.isHTML JSString.slice JSString.split JSString.substring
  JSString.index JSString.length.

Lemma tokenize_loop_settled delegate events h tokens :
  settled_E h tokens (EsprimaLoop.tokenize_loop delegate h events tokens).
Proof.
  revert h tokens. induction events as [|[t|e|e] rest IH]; intros h tokens;
    cbn [EsprimaLoop.tokenize_loop].
  - now repeat split.
  - destruct (EsprimaLoop.transformed delegate t) as [e|v].
    + now repeat split.
    + destruct (IH h (Array.push v tokens)) as (H1 & H2 & H3).
      now repeat split.
  - destruct (ErrorHandler.tolerant h) eqn:Htol.
    + destruct (IH (ErrorHandler.recordError e h) tokens) as (H1 & H2 & H3).
      repeat split; assumption.
    + now repeat split.
  - now repeat split.
Qed.

Lemma tokenizeC_loop_settled delegate events h tokens :
  settled_E h tokens (EsprimaLoop.tokenizeC_loop delegate h events tokens).
Proof.
  revert h tokens. induction events as [|[t|e|e] rest IH]; intros h tokens;
    cbn [EsprimaLoop.tokenizeC_loop].
  - now repeat split.
  - destruct (EsprimaLoop.stops t); [now repeat split|].
    destruct (String.eqb (type t) "String"); [now repeat split|].
    destruct (String.eqb (type t) "Template"); [now repeat split|].
    destruct (EsprimaLoop.transformed delegate t) as [e|v].
    + now repeat split.
    + destruct (IH h (Array.push v tokens)) as (H1 & H2 & H3).
      now repeat split.
  - destruct (ErrorHandler.tolerant h) eqn:Htol.
    + destruct (IH (ErrorHandler.recordError e h) tokens) as (H1 & H2 & H3).
      repeat split; assumption.
    + now repeat split.
  - now repeat split.
Qed.

(** After a settled loop, the function returns an array that has the
    [errors] property exactly in tolerant mode, or raises in strict mode. *)
Lemma Esprima_finish_settled h r :
  settled_E h Array.empty r ->
  match EsprimaLoop.finish r with
  | Normal tokens =>
      bool_decide (is_Some (Array.errors tokens)) = ErrorHandler.tolerant h
  | Throw _ => ErrorHandler.tolerant h = false
  | OutOfFuel => False
  end.
Proof.
  intros (H1 & H2 & H3). unfold EsprimaLoop.finish.
  destruct r as [[[]|e|] l]; cbn [fst snd] in *.
  - rewrite H1. destruct (ErrorHandler.tolerant h); [reflexivity|].
    rewrite H2. reflexivity.
  - rewrite H1. now destruct (ErrorHandler.tolerant h).
  - now apply H3.
Qed.

Lemma Custom_loop_settled delegate events h tokens html :
  settled_C h tokens (CustomLoop.loop delegate h events tokens html).
Proof.
  revert h tokens html.
  induction events as [|[[|t]|e|e] rest IH]; intros h tokens html;
    cbn [CustomLoop.loop].
  - now repeat split.
  - apply IH.
  - destruct (CustomLoop.after_token delegate t) as [e|[ws fs]].
    + now repeat split.
    + destruct (IH h (push_all ws tokens) (html ++ fs)) as (H1 & H2 & H3).
      now repeat split.
  - destruct (ErrorHandler.tolerant h) eqn:Htol.
    + destruct (IH (ErrorHandler.recordError e h) tokens html) as (H1 & H2 & H3).
      repeat split; assumption.
    + now repeat split.
  - now repeat split.
Qed.

Lemma Custom_finish_settled h r :
  settled_C h Array.empty r ->
  match CustomLoop.finish r with
  | Normal c =>
      bool_decide (is_Some (Array.errors (Custom.result_tokens c)))
      = ErrorHandler.tolerant h
  | Throw _ => ErrorHandler.tolerant h = false
  | OutOfFuel => False
  end.
Proof.
  intros (H1 & H2 & H3). unfold CustomLoop.finish.
  destruct r as [[[]|e|] l]; cbn [fst snd] in *.
  - rewrite H1. cbn [Custom.result_tokens].
    destruct (ErrorHandler.tolerant h); [reflexivity|].
    rewrite H2. reflexivity.
  - rewrite H1. now destruct (ErrorHandler.tolerant h).
  - now apply H3.
Qed.

End LoopInvariants.

(** ** Pushing to the result array *)

Section PushFacts.

Lemma set_errors_push_all {A} (es : list Error) (x : A) (xs : list A) (a : Array.t A) :
  Array.set_errors es (push_all xs (Array.push x a))
  = Array.set_errors es (push_all (x :: xs) a).
Proof.
  destruct a. unfold Array.set_errors, push_all, Array.push.
  cbn [Array.elements Array.errors]. now rewrite <- app_assoc.
Qed.

Lemma push_all_push {A} (x : A) (xs : list A) (a : Array.t A) :
  push_all xs (Array.push x a) = push_all (x :: xs) a.
Proof.
  destruct a. unfold push_all, Array.push.
  cbn [Array.elements Array.errors]. now rewrite <- app_assoc.
Qed.

Lemma push_all_nil {A} (a : Array.t A) : push_all [] a = a.
Proof. destruct a. unfold push_all. cbn. now rewrite app_nil_r. Qed.

Lemma push_all_app {A} (xs ys : list A) (a : Array.t A) :
  push_all ys (push_all xs a) = push_all (xs ++ ys) a.
Proof.
  destruct a. unfold push_all. cbn [Array.elements Array.errors].
  now rewrite <- app_assoc.
Qed.

End PushFacts.

(** ** [tokenize] *)

Section BehindTheDelegate.

(** The loop of [tokenize] and the statements after it, in tolerant mode,
    for any delegate: the entries are the values delivered behind the
    delegate up to the first raised error, the [errors] list holds every
    error met. *)
Lemma tokenize_loop_through_tolerant delegate events h tokens :
  ErrorHandler.tolerant h = true ->
  EsprimaLoop.finish (EsprimaLoop.tokenize_loop delegate h events tokens)
  = Normal (Array.set_errors
              (ErrorHandler.errors h ++ recorded (through delegate events))
              (push_all (yielded (through delegate events)) tokens)).
Proof.
  revert h tokens. induction events as [|[t|e|e] rest IH]; intros h tokens Htol;
    cbn [EsprimaLoop.tokenize_loop through].
  - unfold EsprimaLoop.finish. cbn. rewrite Htol, app_nil_r. now rewrite push_all_nil.
  - destruct (EsprimaLoop.transformed delegate t) as [e|v]; cbn [yielded recorded].
    + unfold EsprimaLoop.finish. cbn. rewrite Htol. now rewrite push_all_nil.
    + rewrite IH by assumption. now rewrite set_errors_push_all.
  - rewrite Htol. rewrite IH by assumption. cbn. now rewrite <- app_assoc.
  - unfold EsprimaLoop.finish. cbn. rewrite Htol. now rewrite push_all_nil.
Qed.

(** The same in strict mode: the first error of either origin is raised;
    without one every delivered value is an entry. *)
Lemma tokenize_loop_through_strict delegate events h tokens :
  ErrorHandler.tolerant h = false ->
  EsprimaLoop.finish (EsprimaLoop.tokenize_loop delegate h events tokens)
  = match first_error (through delegate events) with
    | Some e => Throw e
    | None => Normal (push_all (before_error (through delegate events)) tokens)
    end.
Proof.
  revert tokens. induction events as [|[t|e|e] rest IH]; intros tokens Htol;
    cbn [EsprimaLoop.tokenize_loop through].
  - unfold EsprimaLoop.finish. cbn. rewrite Htol. now rewrite push_all_nil.
  - destruct (EsprimaLoop.transformed delegate t) as [e|v];
      cbn [before_error first_error].
    + unfold EsprimaLoop.finish. cbn. now rewrite Htol.
    + rewrite IH by assumption.
      destruct (first_error (through delegate rest)); [reflexivity|].
      now rewrite push_all_push.
  - rewrite Htol. unfold EsprimaLoop.finish. cbn. now rewrite Htol.
  - unfold EsprimaLoop.finish. cbn. now rewrite Htol.
Qed.

End BehindTheDelegate.

(** C7, as amended.  For every scanner, source, options and delegate,
    [tokenize] is described by what the scanner does behind the delegate.
    In tolerant mode it returns: the array holds, in order, the tokens
    scanned up to the first raised error (each replaced by what the delegate
    returned for it), and its [errors] list holds every error met, the
    raised one last.  In strict mode it returns every scanned token in an
    array without [errors] property when no error arises, and otherwise
    raises the first error and returns nothing.  So the call is never cut
    off, it raises in strict mode only, and a returned array has the
    [errors] property exactly when [tolerant] is set.  On a token stream,
    with no delegate or one that returns, the array holds one entry per
    token, in order, in either mode. *)
Theorem tokenize_result
    (scan : string -> option Obj -> list (Tokenizer.Event Token))
    (items : list Token) (code : string) (options : option Obj)
    (delegate : option Delegate) (f : option (Token -> Value)) :
  let events := through delegate (scan code options) in
  Esprima.tokenize scan code options delegate
  = (if option_set options "tolerant"
     then Normal {| Array.elements := yielded events;
                    Array.errors := Some (recorded events) |}
     else match first_error events with
          | Some e => Throw e
          | None => Normal {| Array.elements := before_error events;
                              Array.errors := None |}
          end)
  /\ match Esprima.tokenize scan code options delegate with
     | Normal tokens =>
         bool_decide (is_Some (Array.errors tokens)) = option_set options "tolerant"
     | Throw _ => option_set options "tolerant" = false
     | OutOfFuel => False
     end
  /\ Esprima.tokenize (fun _ _ => quiet items) code options (returning <$> f) =
     Normal {| Array.elements := map (pushed f) items;
               Array.errors :=
                 if option_set options "tolerant" then Some [] else None |}.
Proof.
  cbv zeta. repeat split.
  - rewrite Esprima_tokenize_loop.
    destruct (option_set options "tolerant") eqn:Htol.
    + now rewrite tokenize_loop_through_tolerant.
    + now rewrite tokenize_loop_through_strict.
  - rewrite Esprima_tokenize_loop.
    apply (Esprima_finish_settled
             {| ErrorHandler.errors := [];
                ErrorHandler.tolerant := option_set options "tolerant" |}).
    apply tokenize_loop_settled.
  - rewrite Esprima_tokenize_loop.
    rewrite (Esprima_tokenize_loop_quiet f). unfold EsprimaLoop.finish.
    cbn. now destruct (option_set options "tolerant").
Qed.

(** C7, as stated, fails in strict mode on a source with a lexical error:
    on [x '], where the scanner delivers the identifier and then raises at
    the unterminated literal, [tokenize] raises that error to the caller
    and returns no sequence.  With [tolerant] set the same source gives the
    identifier with the error in the [errors] list. *)
Lemma tokenize_result_counterexample :
  let e := {| message := "Unexpected token ILLEGAL";
              index := 2; lineNumber := 1; column := 2 |} in
  let scan := fun (_ : string) (_ : option Obj) =>
    [Tokenizer.Yields {| type := "Identifier"; value := "x" |}; Tokenizer.Throws e] in
  Esprima.tokenize scan "x '" None None = Throw e
  /\ ~ (exists tokens, Esprima.tokenize scan "x '" None None = Normal tokens)
  /\ Esprima.tokenize scan "x '" (Some {[ "tolerant" := VBool true ]}) None
     = Normal {| Array.elements := [VToken {| type := "Identifier"; value := "x" |}];
                 Array.errors := Some [e] |}.
Proof.
  cbv zeta.
  assert (Heval : Esprima.tokenize
                    (fun _ _ =>
                       [Tokenizer.Yields {| type := "Identifier"; value := "x" |};
                        Tokenizer.Throws {| message := "Unexpected token ILLEGAL";
                                            index := 2; lineNumber := 1; column := 2 |}])
                    "x '" None None
                  = Throw {| message := "Unexpected token ILLEGAL";
                             index := 2; lineNumber := 1; column := 2 |})
    by (vm_compute; reflexivity).
  split; [exact Heval|]. split; [|vm_compute; reflexivity].
  intros [tokens Htokens]. rewrite Heval in Htokens. discriminate Htokens.
Qed.

(** ** [tokenizeC] on token streams *)

Section OnStreams.

Variable code : string.
Variable options : option Obj.
Variable delegate : option (Token -> Value).

Lemma Esprima_tokenizeC_quiet (items : list Token) :
  Esprima.tokenizeC (fun _ _ => quiet items) code options (returning <$> delegate) =
  Normal {| Array.elements := EsprimaLoop.entries delegate items;
            Array.errors := if option_set options "tolerant" then Some [] else None |}.
Proof.
  rewrite Esprima_tokenizeC_loop.
  destruct (Esprima_tokenizeC_loop_quiet delegate items
              {| ErrorHandler.errors := [];
                 ErrorHandler.tolerant := option_set options "tolerant" |}
              Array.empty) as [rest Hrest].
  rewrite Hrest. unfold EsprimaLoop.finish. cbn.
  now destruct (option_set options "tolerant").
Qed.

Lemma Custom_tokenizeC_quiet (items : list Custom.Item) :
  Custom.tokenizeC (fun _ _ => quiet items) code options (returning <$> delegate) =
  Normal {| Custom.result_tokens :=
              {| Array.elements := CustomLoop.plain items;
                 Array.errors :=
                   if option_set options "tolerant" then Some [] else None |};
            Custom.result_html_tokens := CustomLoop.markup items |}.
Proof.
  rewrite Custom_tokenizeC_loop, Custom_loop_quiet. unfold CustomLoop.finish.
  cbn. now destruct (option_set options "tolerant").
Qed.

End OnStreams.

(** ** What [tokenizeC] can raise on a token stream *)

Section StreamRaises.

Local Opaque Custom.isHTML JSString.slice JSString.split JSString.substring
  JSString.index JSString.length.

Lemma after_token_literal (d : option Delegate) (t : Token) :
  String.eqb (type t) "String" || String.eqb (type t) "Template" = true ->
  CustomLoop.after_token d t = inr (CustomLoop.classify (Custom.Tok t)).
Proof.
  intros H. rewrite <- after_token_None. unfold CustomLoop.after_token.
  destruct (String.eqb (type t) "String"); [reflexivity|].
  destruct (String.eqb (type t) "Template"); [reflexivity|discriminate H].
Qed.

Lemma after_token_other_returns (d : Delegate) (t : Token) :
  String.eqb (type t) "String" || String.eqb (type t) "Template" = false ->
  raised (d t) = None ->
  CustomLoop.after_token (Some d) t = inr (CustomLoop.classify (Custom.Tok t)).
Proof.
  intros H Hd. rewrite <- after_token_None. unfold CustomLoop.after_token.
  destruct (String.eqb (type t) "String"); [discriminate H|].
  destruct (String.eqb (type t) "Template"); [discriminate H|].
  now destruct (d t).
Qed.

(** The statements after either loop raise only what the loop raised. *)
Lemma Esprima_finish_throw r e :
  EsprimaLoop.finish r = Throw e -> fst r = Throw e.
Proof.
  unfold EsprimaLoop.finish. destruct (fst r) as [[]|e'|]; [discriminate| |discriminate].
  destruct (ErrorHandler.tolerant _); [discriminate|]. now intros [= ->].
Qed.

Lemma Custom_finish_throw r e :
  CustomLoop.finish r = Throw e -> fst r = Throw e.
Proof.
  unfold CustomLoop.finish. destruct (fst r) as [[]|e'|]; [discriminate| |discriminate].
  destruct (ErrorHandler.tolerant _); [discriminate|]. now intros [= ->].
Qed.

(** On a token stream the loop of [src/esprima.ts] is left by an error only
    when the delegate raised it, on an identifier of the stream. *)
Lemma tokenizeC_loop_stream_raises delegate items h tokens e :
  fst (EsprimaLoop.tokenizeC_loop delegate h (quiet items) tokens) = Throw e ->
  exists d t,
    delegate = Some d /\ In t items
    /\ String.eqb (type t) "Identifier" = true /\ d t = Raises e.
Proof.
  revert tokens. induction items as [|t items IH]; intros tokens;
    cbn [quiet map EsprimaLoop.tokenizeC_loop fst]; [discriminate|].
  fold (quiet items).
  destruct (EsprimaLoop.stops t) eqn:Hstops; [discriminate|].
  destruct (String.eqb (type t) "String") eqn:Hs; [discriminate|].
  destruct (String.eqb (type t) "Template") eqn:Ht; [discriminate|].
  assert (Hid : String.eqb (type t) "Identifier" = true).
  { unfold EsprimaLoop.stops in Hstops. rewrite Hs, Ht in Hstops.
    destruct (String.eqb (type t) "Identifier"); [reflexivity|].
    now rewrite orb_true_r in Hstops. }
  unfold EsprimaLoop.transformed at 1.
  destruct delegate as [d|].
  - destruct (d t) as [v|e'] eqn:Hd.
    + intros H. destruct (IH _ H) as (d' & t' & Hd' & Hin & Hid' & Hraise).
      exists d', t'. repeat split; [assumption|now right|assumption|assumption].
    + cbn [fst]. intros [= ->]. exists d, t.
      repeat split; [now left|assumption|assumption].
  - intros H. destruct (IH _ H) as (d' & _ & Hd' & _). discriminate Hd'.
Qed.

(** The same for the copy with markup detection: the delegate raised it, on
    a token of the stream that is no string or template literal. *)
Lemma Custom_loop_stream_raises delegate items h tokens html e :
  fst (CustomLoop.loop delegate h (quiet items) tokens html) = Throw e ->
  exists d t,
    delegate = Some d /\ In (Custom.Tok t) items
    /\ String.eqb (type t) "String" || String.eqb (type t) "Template" = false
    /\ d t = Raises e.
Proof.
  revert tokens html. induction items as [|[|t] items IH]; intros tokens html;
    cbn [quiet map CustomLoop.loop fst]; [discriminate| |]; fold (quiet items).
  - intros H. destruct (IH _ _ H) as (d' & t' & Hd' & Hin & Hother & Hraise).
    exists d', t'. repeat split; [assumption|now right|assumption|assumption].
  - destruct (String.eqb (type t) "String" || String.eqb (type t) "Template") eqn:Hl.
    + rewrite after_token_literal by assumption.
      destruct (CustomLoop.classify (Custom.Tok t)) as [ws fs].
      intros H. destruct (IH _ _ H) as (d' & t' & Hd' & Hin & Hother & Hraise).
      exists d', t'. repeat split; [assumption|now right|assumption|assumption].
    + destruct delegate as [d|].
      * destruct (d t) as [v|e'] eqn:Hd.
        -- rewrite after_token_other_returns by (try assumption; now rewrite Hd).
           destruct (CustomLoop.classify (Custom.Tok t)) as [ws fs].
           intros H. destruct (IH _ _ H) as (d' & t' & Hd' & Hin & Hother & Hraise).
           exists d', t'. repeat split; [assumption|now right|assumption|assumption].
        -- unfold CustomLoop.after_token.
           apply orb_false_elim in Hl as [Hs Ht]. rewrite Hs, Ht, Hd. cbn [fst].
           intros [= ->]. exists d, t.
           repeat split; [now left|now rewrite Hs, Ht|assumption].
      * rewrite after_token_None.
        destruct (CustomLoop.classify (Custom.Tok t)) as [ws fs].
        intros H. destruct (IH _ _ H) as (d' & _ & Hd' & _). discriminate Hd'.
Qed.

End StreamRaises.

(** C3, as amended.  On every token stream the literal classifier raises
    nothing of its own: in strict and in tolerant mode, with no delegate or
    one that returns, [tokenizeC] of either file returns a result, whatever
    the literals look like.  With any delegate, the only error that reaches
    the caller on a token stream is one the delegate raised on a token of
    the stream it is called on (an identifier in [src/esprima.ts], a token
    that is no string or template literal in the copy), and it reaches the
    caller in strict mode only.  Moreover, whatever the scanner and the
    delegate do, neither function is cut off, and an error of theirs
    reaches the caller in strict mode only. *)
Theorem tokenizeC_raises_delegate_errors_only
    (items : list Token) (items' : list Custom.Item)
    (scan : string -> option Obj -> list (Tokenizer.Event Token))
    (scan' : string -> option Obj -> list (Tokenizer.Event Custom.Item))
    (code : string) (options : option Obj)
    (f : option (Token -> Value)) (delegate : option Delegate) :
  (exists a,
     Esprima.tokenizeC (fun _ _ => quiet items) code options (returning <$> f)
     = Normal a)
  /\ (exists c,
        Custom.tokenizeC (fun _ _ => quiet items') code options (returning <$> f)
        = Normal c)
  /\ match Esprima.tokenizeC (fun _ _ => quiet items) code options delegate with
     | Normal _ => True
     | Throw e =>
         option_set options "tolerant" = false
         /\ exists d t,
              delegate = Some d /\ In t items
              /\ String.eqb (type t) "Identifier" = true /\ d t = Raises e
     | OutOfFuel => False
     end
  /\ match Custom.tokenizeC (fun _ _ => quiet items') code options delegate with
     | Normal _ => True
     | Throw e =>
         option_set options "tolerant" = false
         /\ exists d t,
              delegate = Some d /\ In (Custom.Tok t) items'
              /\ String.eqb (type t) "String" || String.eqb (type t) "Template" = false
              /\ d t = Raises e
     | OutOfFuel => False
     end
  /\ match Esprima.tokenizeC scan code options delegate with
     | Normal _ => True
     | Throw _ => option_set options "tolerant" = false
     | OutOfFuel => False
     end
  /\ match Custom.tokenizeC scan' code options delegate with
     | Normal _ => True
     | Throw _ => option_set options "tolerant" = false
     | OutOfFuel => False
     end.
Proof.
  assert (HE : forall events,
             match EsprimaLoop.finish
                     (EsprimaLoop.tokenizeC_loop delegate
                        {| ErrorHandler.errors := [];
                           ErrorHandler.tolerant := option_set options "tolerant" |}
                        events Array.empty) with
             | Normal _ => True
             | Throw _ => option_set options "tolerant" = false
             | OutOfFuel => False
             end).
  { intros events.
    pose proof (Esprima_finish_settled _ _
                  (tokenizeC_loop_settled delegate events
                     {| ErrorHandler.errors := [];
                        ErrorHandler.tolerant := option_set options "tolerant" |}
                     Array.empty)) as H.
    destruct (EsprimaLoop.finish _); [exact I|exact H|exact H]. }
  assert (HC : forall events,
             match CustomLoop.finish
                     (CustomLoop.loop delegate
                        {| ErrorHandler.errors := [];
                           ErrorHandler.tolerant := option_set options "tolerant" |}
                        events Array.empty []) with
             | Normal _ => True
             | Throw _ => option_set options "tolerant" = false
             | OutOfFuel => False
             end).
  { intros events.
    pose proof (Custom_finish_settled _ _
                  (Custom_loop_settled delegate events
                     {| ErrorHandler.errors := [];
                        ErrorHandler.tolerant := option_set options "tolerant" |}
                     Array.empty [])) as H.
    destruct (CustomLoop.finish _); [exact I|exact H|exact H]. }
  split; [eexists; apply Esprima_tokenizeC_quiet|].
  split; [eexists; apply Custom_tokenizeC_quiet|].
  split; [|split; [|split]].
  - rewrite Esprima_tokenizeC_loop. specialize (HE (quiet items)).
    destruct (EsprimaLoop.finish _) as [a|e|] eqn:Hfinish; [exact I| |exact HE].
    split; [exact HE|].
    exact (tokenizeC_loop_stream_raises _ _ _ _ _ (Esprima_finish_throw _ _ Hfinish)).
  - rewrite Custom_tokenizeC_loop. specialize (HC (quiet items')).
    destruct (CustomLoop.finish _) as [c|e|] eqn:Hfinish; [exact I| |exact HC].
    split; [exact HC|].
    exact (Custom_loop_stream_raises _ _ _ _ _ _ (Custom_finish_throw _ _ Hfinish)).
  - rewrite Esprima_tokenizeC_loop. apply HE.
  - rewrite Custom_tokenizeC_loop. apply HC.
Qed.

(** C3, as stated, fails when the caller passes a delegate that raises: on
    the token stream of the source [x], in strict mode, [tokenizeC] of
    either file raises the error of the delegate to the caller and returns
    nothing. *)
Lemma tokenizeC_raises_delegate_error :
  let e := {| message := "no identifiers"; index := 0; lineNumber := 1; column := 0 |} in
  let d : Delegate := fun _ => Raises e in
  let x := {| type := "Identifier"; value := "x" |} in
  Esprima.tokenizeC (fun _ _ => quiet [x]) "x" None (Some d) = Throw e
  /\ Custom.tokenizeC (fun _ _ => quiet [Custom.Tok x]) "x" None (Some d) = Throw e
  /\ ~ (exists a, Esprima.tokenizeC (fun _ _ => quiet [x]) "x" None (Some d) = Normal a)
  /\ ~ (exists c,
          Custom.tokenizeC (fun _ _ => quiet [Custom.Tok x]) "x" None (Some d) = Normal c).
Proof.
  cbv zeta.
  assert (HE : Esprima.tokenizeC
                 (fun _ _ => quiet [{| type := "Identifier"; value := "x" |}]) "x" None
                 (Some (fun _ => Raises {| message := "no identifiers"; index := 0;
                                           lineNumber := 1; column := 0 |}))
               = Throw {| message := "no identifiers"; index := 0;
                          lineNumber := 1; column := 0 |})
    by (vm_compute; reflexivity).
  assert (HC : Custom.tokenizeC
                 (fun _ _ => quiet [Custom.Tok {| type := "Identifier"; value := "x" |}])
                 "x" None
                 (Some (fun _ => Raises {| message := "no identifiers"; index := 0;
                                           lineNumber := 1; column := 0 |}))
               = Throw {| message := "no identifiers"; index := 0;
                          lineNumber := 1; column := 0 |})
    by (vm_compute; reflexivity).
  split; [exact HE|]. split; [exact HC|]. split.
  - intros [a Ha]. pose proof (eq_trans (eq_sym HE) Ha) as Hboth. discriminate Hboth.
  - intros [c Hc]. pose proof (eq_trans (eq_sym HC) Hc) as Hboth. discriminate Hboth.
Qed.

(** C1, as amended.  On every token stream, with a delegate that returns,
    [tokenizeC] of the copy with markup detection returns an object with two
    properties: [tokens], the plain strings of the items in source order
    (with an [errors] list in tolerant mode), and [html_tokens], the markup
    fragments in source order, each of them accepted by [isHTML].
    [tokenizeC] of [src/esprima.ts] returns the array of entries itself,
    which has no property for markup fragments. *)
Theorem tokenizeC_result
    (items : list Token) (items' : list Custom.Item)
    (code : string) (options : option Obj) (delegate : option (Token -> Value)) :
  let c := {| Custom.result_tokens :=
                {| Array.elements := CustomLoop.plain items';
                   Array.errors :=
                     if option_set options "tolerant" then Some [] else None |};
              Custom.result_html_tokens := CustomLoop.markup items' |} in
  let a := {| Array.elements := EsprimaLoop.entries delegate items;
              Array.errors := if option_set options "tolerant" then Some [] else None |} in
  Custom.tokenizeC (fun _ _ => quiet items') code options (returning <$> delegate)
  = Normal c
  /\ Custom.has_property "tokens" c = true
  /\ Custom.has_property "html_tokens" c = true
  /\ Forall (fun fragment => Custom.isHTML fragment = true) (Custom.result_html_tokens c)
  /\ Esprima.tokenizeC (fun _ _ => quiet items) code options (returning <$> delegate)
     = Normal a
  /\ Array.has_property "tokens" a = false
  /\ Array.has_property "html_tokens" a = false.
Proof.
  cbv zeta. repeat split.
  - apply Custom_tokenizeC_quiet.
  - apply markup_isHTML.
  - apply Esprima_tokenizeC_quiet.
Qed.

(** C1, as stated, fails on [src/esprima.ts]: its [tokenizeC] does not
    return an object with a [tokens] and an [html_tokens] property.  On the
    literal ['<div>hi</div>'] it returns the array with that one entry. *)
Lemma tokenizeC_result_counterexample :
  let scan := fun (_ : string) (_ : option Obj) =>
    quiet [{| type := "String"; value := "'<div>hi</div>'" |}] in
  Esprima.tokenizeC scan "'<div>hi</div>'" None None
  = Normal {| Array.elements := [VToken {| type := "String"; value := "<div>hi</div>" |}];
              Array.errors := None |}
  /\ ~ (exists a,
          Esprima.tokenizeC scan "'<div>hi</div>'" None None = Normal a
          /\ Array.has_property "tokens" a = true
          /\ Array.has_property "html_tokens" a = true).
Proof.
  cbv zeta. split; [vm_compute; reflexivity|].
  intros (a & Ha & Htokens & _).
  assert (Heval : Esprima.tokenizeC
                    (fun _ _ => quiet [{| type := "String"; value := "'<div>hi</div>'" |}])
                    "'<div>hi</div>'" None None
                  = Normal {| Array.elements :=
                                [VToken {| type := "String"; value := "<div>hi</div>" |}];
                              Array.errors := None |})
    by (vm_compute; reflexivity).
  rewrite Heval in Ha. injection Ha as <-. discriminate Htokens.
Qed.

(** ** The delegate in the copy with markup detection *)

Section DelegateFacts.

Local Opaque Custom.isHTML JSString.slice JSString.split JSString.substring
  JSString.index JSString.length.

Lemma after_token_same_raises (d1 d2 : Delegate) (t : Token) :
  raised (d1 t) = raised (d2 t) ->
  CustomLoop.after_token (Some d1) t = CustomLoop.after_token (Some d2) t.
Proof.
  intros H. unfold CustomLoop.after_token.
  destruct (String.eqb (type t) "String"); [reflexivity|].
  destruct (String.eqb (type t) "Template"); [reflexivity|].
  destruct (d1 t), (d2 t); cbn in H; congruence.
Qed.

Lemma Custom_loop_same_raises (d1 d2 : Delegate) events h tokens html :
  (forall t, raised (d1 t) = raised (d2 t)) ->
  CustomLoop.loop (Some d1) h events tokens html =
  CustomLoop.loop (Some d2) h events tokens html.
Proof.
  intros H. revert h tokens html.
  induction events as [|[[|t]|e|e] rest IH]; intros h tokens html;
    cbn [CustomLoop.loop]; try reflexivity.
  - apply IH.
  - rewrite (after_token_same_raises d1 d2 t (H t)).
    destruct (CustomLoop.after_token (Some d2) t) as [e|[ws fs]];
      [reflexivity|apply IH].
  - destruct (ErrorHandler.tolerant h); [apply IH|reflexivity].
Qed.

End DelegateFacts.

(** C10.  In the copy that goes on past the other tokens, the value pushed
    for such a token is [value], read before the delegate runs: two delegates
    that raise on the same tokens give the same result whatever they return,
    and on a single token of another type the output is its value. *)
Theorem delegate_result_is_discarded
    (scan : string -> option Obj -> list (Tokenizer.Event Custom.Item))
    (code : string) (options : option Obj) (d1 d2 : Delegate) (t : Token) :
  (forall t, raised (d1 t) = raised (d2 t)) ->
  String.eqb (type t) "String" = false ->
  String.eqb (type t) "Template" = false ->
  Custom.tokenizeC scan code options (Some d1) = Custom.tokenizeC scan code options (Some d2)
  /\ forall f,
       Custom.tokenizeC (fun _ _ => quiet [Custom.Tok t]) code options (Some (returning f))
       = Normal {| Custom.result_tokens :=
                     {| Array.elements := [value t];
                        Array.errors :=
                          if option_set options "tolerant" then Some [] else None |};
                   Custom.result_html_tokens := [] |}.
Proof.
  intros H HS HT. split.
  - rewrite !Custom_tokenizeC_loop. f_equal. now apply Custom_loop_same_raises.
  - intros f. rewrite (Custom_tokenizeC_quiet code options (Some f)).
    unfold CustomLoop.plain, CustomLoop.markup, CustomLoop.classify,
      CustomLoop.after_token.
    cbn [flat_map]. rewrite HS, HT. reflexivity.
Qed.

(** The theorem above on an identifier followed by a string literal, with
    one delegate that returns [null] and one that returns the token. *)
Lemma delegate_result_is_discarded_witness :
  let scan := fun (_ : string) (_ : option Obj) =>
    quiet [Custom.Tok {| type := "Identifier"; value := "x" |};
           Custom.Tok {| type := "String"; value := "'one two'" |}] in
  let t := {| type := "Identifier"; value := "x" |} in
  Custom.tokenizeC scan "x 'one two'" None (Some (returning (fun _ => VNull)))
  = Custom.tokenizeC scan "x 'one two'" None (Some (returning VToken))
  /\ forall f,
       Custom.tokenizeC (fun _ _ => quiet [Custom.Tok t]) "x 'one two'" None
         (Some (returning f))
       = Normal {| Custom.result_tokens :=
                     {| Array.elements := [value t];
                        Array.errors :=
                          if option_set None "tolerant" then Some [] else None |};
                   Custom.result_html_tokens := [] |}.
Proof.
  exact (delegate_result_is_discarded _ "x 'one two'" None
           (returning (fun _ => VNull)) (returning VToken)
           {| type := "Identifier"; value := "x" |}
           (fun _ => eq_refl) eq_refl eq_refl).
Defined.


(** ** Markup detection *)

(** The pattern is well formed, so [isHTML] is the test of [html_regex]. *)
Lemma regex_built :
  (p ← Custom.pattern (JSString.join "|" Custom.html_tags); RegExp.new p "i")
  = Some html_regex.
Proof. vm_compute. reflexivity. Qed.

Lemma isHTML_test (str : string) :
  Custom.isHTML str = RegExp.test html_regex str.
Proof.
  unfold Custom.isHTML. pose proof regex_built as H.
  destruct (Custom.pattern (JSString.join "|" Custom.html_tags)) as [p|];
    [|discriminate H].
  cbn in H. now rewrite H.
Qed.

(** A match of one alternative anywhere in the string makes [test] succeed. *)
Lemma test_anywhere (r : RegExp.t) (alt : RegExp.Alternative) (before rest : string) :
  In alt (RegExp.disjunction r) ->
  RegExp.match_terms (RegExp.ignoreCase r) alt rest = true ->
  RegExp.test r (before +:+ rest) = true.
Proof.
  intros Hin Hm.
  assert (Hhere : RegExp.match_here r rest = true).
  { unfold RegExp.match_here. apply existsb_exists. now exists alt. }
  induction before as [|c before IH].
  - change (RegExp.test r rest = true).
    destruct rest; cbn [RegExp.test]; now rewrite Hhere.
  - change (RegExp.test r (String c (before +:+ rest)) = true).
    cbn [RegExp.test]. rewrite IH. apply orb_true_r.
Qed.

(** The tag names are alternatives of their own: whatever contains the
    letter [b], in either case, is accepted, tag-shaped or not. *)
Lemma isHTML_any_b (before after : string) :
  Custom.isHTML (before +:+ String "b" after) = true
  /\ Custom.isHTML (before +:+ String "B" after) = true.
Proof.
  rewrite !isHTML_test.
  assert (Hin : In [(RegExp.PatternCharacter "b", RegExp.Once)]
                   (RegExp.disjunction html_regex)).
  { unfold html_regex. cbn [RegExp.disjunction].
    repeat (first [left; reflexivity | right]). }
  split; apply (test_anywhere _ _ _ _ Hin); reflexivity.
Qed.

(** C2, at the input where the code departs from it.  The two tag-shaped
    examples classify as markup, and so does the text [not html], through
    the alternative [html] that the pattern has on its own. *)
Theorem isHTML_accepts_not_html :
  Custom.isHTML "<DIV>x</DIV>" = true
  /\ Custom.isHTML "<div>x</div>" = true
  /\ Custom.isHTML "not html" = true
  /\ In [(RegExp.PatternCharacter "h", RegExp.Once);
         (RegExp.PatternCharacter "t", RegExp.Once);
         (RegExp.PatternCharacter "m", RegExp.Once);
         (RegExp.PatternCharacter "l", RegExp.Once)]
        (RegExp.disjunction html_regex).
Proof.
  repeat split; try (vm_compute; reflexivity).
  unfold html_regex. cbn [RegExp.disjunction].
  repeat (first [left; reflexivity | right]).
Qed.

(** C6, at the input where the code departs from it.  The tokens of
    [const x = 'foo bar'] are a keyword, an identifier, a punctuator and the
    string literal.  The unwrapped literal contains the letter [b], a tag
    name, so it goes to the markup fragments whole: no [foo] and no [bar]
    among the plain tokens.  The same holds when the tokenizer hands out
    empty objects for the tokens outside identifier, template and string. *)
Theorem tokenizeC_foo_bar :
  let literal := Custom.Tok {| type := "String"; value := "'foo bar'" |} in
  let x := Custom.Tok {| type := "Identifier"; value := "x" |} in
  Custom.tokenizeC
    (fun _ _ => quiet [Custom.Tok {| type := "Keyword"; value := "const" |}; x;
                       Custom.Tok {| type := "Punctuator"; value := "=" |}; literal])
    "const x = 'foo bar'" None None
  = Normal {| Custom.result_tokens :=
                {| Array.elements := ["const"; "x"; "="]; Array.errors := None |};
              Custom.result_html_tokens := ["foo bar"] |}
  /\ Custom.tokenizeC
       (fun _ _ => quiet [Custom.EmptyObject; x; Custom.EmptyObject; literal])
       "const x = 'foo bar'" None None
     = Normal {| Custom.result_tokens :=
                   {| Array.elements := ["x"]; Array.errors := None |};
                 Custom.result_html_tokens := ["foo bar"] |}.
Proof. split; vm_compute; reflexivity. Qed.

(** ** Pieces of a literal *)

Section Clamping.

Lemma substring_prefix (a b : string) :
  String.substring 0 (String.length a) (a +:+ b) = a.
Proof.
  induction a as [|c a IH]; [now destruct b|].
  change (String c a +:+ b) with (String c (a +:+ b)).
  cbn [String.length String.substring]. now rewrite IH.
Qed.

Lemma length_append (a b : string) :
  String.length (a +:+ b) = (String.length a + String.length b)%nat.
Proof.
  induction a as [|c a IH]; [reflexivity|].
  change (String c a +:+ b) with (String c (a +:+ b)).
  cbn [String.length]. now rewrite IH.
Qed.

(** [slice(1, length - 1)] drops the first and the last unit. *)
Lemma slice_inner (first last : ascii) (body : string) :
  let s := String first (body +:+ String last EmptyString) in
  JSString.slice s 1 (JSString.length s - 1) = body.
Proof.
  cbv zeta. unfold JSString.slice, JSString.relative, JSString.length.
  cbn [String.length]. rewrite length_append. cbn [String.length].
  set (n := String.length body).
  assert (H1 : (1 <? 0) = false) by reflexivity.
  assert (H2 : (Z.of_nat (S (n + 1)) - 1 <? 0) = false) by (apply Z.ltb_ge; lia).
  rewrite H1, H2.
  replace (Z.to_nat (Z.min 1 (Z.of_nat (S (n + 1))))) with 1%nat by lia.
  replace (Z.to_nat (Z.max (Z.min (Z.of_nat (S (n + 1)) - 1) (Z.of_nat (S (n + 1)))
                            - Z.min 1 (Z.of_nat (S (n + 1)))) 0))
    with n by lia.
  cbn [String.substring]. apply substring_prefix.
Qed.

(** The indices are clamped: a literal of fewer than two units unwraps to
    the empty string. *)
Lemma unwrap_string_short (c : ascii) :
  unwrap_string EmptyString = EmptyString
  /\ unwrap_string (String c EmptyString) = EmptyString.
Proof. split; reflexivity. Qed.

Lemma unwrap_template_short :
  unwrap_template EmptyString = EmptyString
  /\ unwrap_template (String backtick EmptyString) = EmptyString.
Proof. split; reflexivity. Qed.

(** A piece that starts with a quote loses its first and its last unit,
    whatever the last unit is. *)
Lemma strip_quotes_both_ends (first last : ascii) (body : string) :
  first = "'"%char \/ first = "034"%char ->
  strip_quotes (String first (body +:+ String last EmptyString)) = body.
Proof.
  intros Hq. unfold strip_quotes.
  assert (Hsub : JSString.substring (String first (body +:+ String last EmptyString)) 0 1
                 = String first EmptyString).
  { unfold JSString.substring, JSString.length. cbn [String.length].
    set (n := String.length (body +:+ String last EmptyString)).
    replace (Z.min (Z.max 0 0) (Z.of_nat (S n))) with 0 by lia.
    replace (Z.min (Z.max 1 0) (Z.of_nat (S n))) with 1 by lia.
    cbn. now destruct (body +:+ String last EmptyString). }
  rewrite Hsub.
  replace (String.eqb (String first EmptyString) quote
           || String.eqb (String first EmptyString) dquote) with true
    by (destruct Hq; subst first; reflexivity).
  apply slice_inner.
Qed.

(** A piece that starts with no quote is left as it is, a quote at its
    end included. *)
Lemma strip_quotes_unquoted (first : ascii) (rest : string) :
  first <> "'"%char -> first <> "034"%char ->
  strip_quotes (String first rest) = String first rest.
Proof.
  intros H1 H2. unfold strip_quotes.
  assert (Hsub : JSString.substring (String first rest) 0 1 = String first EmptyString).
  { unfold JSString.substring, JSString.length. cbn [String.length].
    set (n := String.length rest).
    replace (Z.min (Z.max 0 0) (Z.of_nat (S n))) with 0 by lia.
    replace (Z.min (Z.max 1 0) (Z.of_nat (S n))) with 1 by lia.
    cbn. now destruct rest. }
  rewrite Hsub. unfold quote, dquote.
  replace (String.eqb (String first EmptyString) (String "'" EmptyString)) with false.
  2:{ symmetry. apply String.eqb_neq. congruence. }
  replace (String.eqb (String first EmptyString) (String "034" EmptyString)) with false.
  2:{ symmetry. apply String.eqb_neq. congruence. }
  reflexivity.
Qed.

End Clamping.

(** C4, at the input where the code departs from it.  The literal is the
    double-quoted string whose text is ['one two].  Its first piece starts
    with a quote and ends with the letter [e]; the classifier drops both and
    emits [on].  The template literal with the same text fares the same. *)
Theorem quoted_piece_loses_its_last_unit :
  let literal := {| type := "String"; value := dquote +:+ "'one two" +:+ dquote |} in
  let template := {| type := "Template"; value := "`'one two`" |} in
  Custom.tokenizeC (fun _ _ => quiet [Custom.Tok literal; Custom.Tok template])
    EmptyString None None
  = Normal {| Custom.result_tokens :=
                {| Array.elements := ["on"; "two"; "on"; "two"]; Array.errors := None |};
              Custom.result_html_tokens := [] |}
  /\ Esprima.tokenizeC (fun _ _ => quiet [literal]) EmptyString None None
     = Normal {| Array.elements := [VToken {| type := "String"; value := "on" |};
                                    VToken {| type := "String"; value := "two" |}];
                 Array.errors := None |}
  /\ Esprima.tokenizeC (fun _ _ => quiet [template]) EmptyString None None
     = Normal {| Array.elements := [VToken {| type := "Template"; value := "on" |};
                                    VToken {| type := "Template"; value := "two" |}];
                 Array.errors := None |}.
Proof. repeat split; vm_compute; reflexivity. Qed.

(** ** The two files side by side *)

Section Stopping.

Import EsprimaLoop.

Local Opaque JSString.slice JSString.split JSString.substring
  JSString.index JSString.length.

(** Nothing after a token that [stops] the loop of [src/esprima.ts] has a
    part in what the function returns. *)
Lemma Esprima_loop_stops delegate before t after h tokens :
  stops t = true ->
  finish (tokenizeC_loop delegate h (before ++ Tokenizer.Yields t :: after) tokens) =
  finish (tokenizeC_loop delegate h before tokens).
Proof.
  intros Hstop. revert h tokens.
  induction before as [|[t'|e|e] before IH]; intros h tokens;
    cbn [app tokenizeC_loop].
  - rewrite Hstop. reflexivity.
  - destruct (stops t'); [reflexivity|].
    destruct (String.eqb (type t') "String"); [reflexivity|].
    destruct (String.eqb (type t') "Template"); [reflexivity|].
    destruct (transformed delegate t'); [reflexivity|apply IH].
  - destruct (ErrorHandler.tolerant h); [apply IH|reflexivity].
  - reflexivity.
Qed.

Lemma stops_outside (t : Token) :
  type t <> "Identifier" -> type t <> "Template" -> type t <> "String" ->
  stops t = true.
Proof.
  intros HI HT HS. unfold stops.
  apply String.eqb_neq in HI, HT, HS. rewrite HI, HT, HS.
  apply orb_true_r.
Qed.

End Stopping.

Lemma plain_app (items1 items2 : list Custom.Item) :
  CustomLoop.plain (items1 ++ items2) = CustomLoop.plain items1 ++ CustomLoop.plain items2.
Proof. unfold CustomLoop.plain. now rewrite flat_map_app. Qed.

Lemma markup_app (items1 items2 : list Custom.Item) :
  CustomLoop.markup (items1 ++ items2) = CustomLoop.markup items1 ++ CustomLoop.markup items2.
Proof. unfold CustomLoop.markup. now rewrite flat_map_app. Qed.

Lemma classify_other (t : Token) :
  type t <> "Template" -> type t <> "String" ->
  CustomLoop.classify (Custom.Tok t) = ([value t], []).
Proof.
  intros HT HS. unfold CustomLoop.classify, CustomLoop.after_token.
  apply String.eqb_neq in HT, HS. now rewrite HT, HS.
Qed.

(** C5, as amended.  For a token [t] outside identifier, template and
    string: [tokenizeC] of [src/esprima.ts] stops at [t], so that what it
    returns is what it returns on the script cut before [t]; [tokenizeC] of
    the copy goes on past [t], pushing its value, and classifies the items
    after it as it does the items before it. *)
Theorem variants_at_other_tokens
    (before after : list (Tokenizer.Event Token))
    (items1 items2 : list Custom.Item) (t : Token)
    (code : string) (options : option Obj)
    (delegate : option Delegate) (f : option (Token -> Value)) :
  type t <> "Identifier" -> type t <> "Template" -> type t <> "String" ->
  Esprima.tokenizeC (fun _ _ => before ++ Tokenizer.Yields t :: after) code options delegate
  = Esprima.tokenizeC (fun _ _ => before) code options delegate
  /\ Custom.tokenizeC (fun _ _ => quiet (items1 ++ Custom.Tok t :: items2))
       code options (returning <$> f)
     = Normal {| Custom.result_tokens :=
                   {| Array.elements :=
                        CustomLoop.plain items1 ++ value t :: CustomLoop.plain items2;
                      Array.errors :=
                        if option_set options "tolerant" then Some [] else None |};
                 Custom.result_html_tokens :=
                   CustomLoop.markup items1 ++ CustomLoop.markup items2 |}.
Proof.
  intros HI HT HS. split.
  - rewrite !Esprima_tokenizeC_loop. apply Esprima_loop_stops.
    now apply stops_outside.
  - rewrite Custom_tokenizeC_quiet. rewrite plain_app, markup_app.
    unfold CustomLoop.plain at 2, CustomLoop.markup at 2. cbn [flat_map].
    rewrite (classify_other t HT HS). reflexivity.
Qed.

(** The theorem above on [x = 'one two'], where [=] is the token outside
    the set. *)
Lemma variants_at_other_tokens_witness :
  let x := {| type := "Identifier"; value := "x" |} in
  let assign := {| type := "Punctuator"; value := "=" |} in
  let lit := {| type := "String"; value := "'one two'" |} in
  Esprima.tokenizeC
    (fun _ _ => [Tokenizer.Yields x] ++ Tokenizer.Yields assign :: [Tokenizer.Yields lit])
    "x = 'one two'" None None
  = Esprima.tokenizeC (fun _ _ => [Tokenizer.Yields x]) "x = 'one two'" None None
  /\ Custom.tokenizeC
       (fun _ _ => quiet ([Custom.Tok x] ++ Custom.Tok assign :: [Custom.Tok lit]))
       "x = 'one two'" None (returning <$> None)
     = Normal {| Custom.result_tokens :=
                   {| Array.elements :=
                        CustomLoop.plain [Custom.Tok x]
                        ++ value assign :: CustomLoop.plain [Custom.Tok lit];
                      Array.errors :=
                        if option_set None "tolerant" then Some [] else None |};
                 Custom.result_html_tokens :=
                   CustomLoop.markup [Custom.Tok x] ++ CustomLoop.markup [Custom.Tok lit] |}.
Proof.
  exact (variants_at_other_tokens
           [Tokenizer.Yields {| type := "Identifier"; value := "x" |}]
           [Tokenizer.Yields {| type := "String"; value := "'one two'" |}]
           [Custom.Tok {| type := "Identifier"; value := "x" |}]
           [Custom.Tok {| type := "String"; value := "'one two'" |}]
           {| type := "Punctuator"; value := "=" |}
           "x = 'one two'" None None None
           ltac:(discriminate) ltac:(discriminate) ltac:(discriminate)).
Defined.

(** C5, as stated, fails: the two files do not differ in that policy alone.
    On two string literals, both inside the set, [src/esprima.ts] stops after
    the first and the copy classifies both. *)
Lemma variants_differ_inside_the_set :
  ~ (forall items : list Token,
       forallb in_literal_set items = true ->
       plain_of_Esprima
         (Esprima.tokenizeC (fun _ _ => quiet items) EmptyString None None)
       = plain_of_Custom
           (Custom.tokenizeC (fun _ _ => quiet (map Custom.Tok items))
              EmptyString None None)).
Proof.
  intros H.
  specialize (H [{| type := "String"; value := "'x'" |};
                 {| type := "String"; value := "'y'" |}] eq_refl).
  vm_compute in H. discriminate H.
Qed.


(** ** The store under [parse], [parseModule] and [parseScript] *)

Section StoreFacts.

Lemma deref_insert (r : Ref) (o : Obj) (h : Heap) :
  Store.deref r (<[r := o]> h) = o.
Proof. unfold Store.deref. now rewrite lookup_insert_eq. Qed.

Lemma deref_lookup (r : Ref) (o : Obj) (h : Heap) :
  h !! r = Some o -> Store.deref r h = o.
Proof. unfold Store.deref. now intros ->. Qed.

Lemma deref_fresh (h : Heap) : Store.deref (fresh (dom h)) h = ∅.
Proof.
  unfold Store.deref.
  destruct (h !! fresh (dom h)) as [o|] eqn:H; [|reflexivity].
  exfalso. apply (is_fresh (dom h)), elem_of_dom. now exists o.
Qed.

Lemma read_only_ret {A} (a : A) : read_only (mret a : M Heap A).
Proof. now intros h. Qed.

Lemma read_only_throw {A} (e : Error) : read_only (throw e : M Heap A).
Proof. now intros h. Qed.

Lemma read_only_gets {A} (f : Heap -> A) : read_only (gets f).
Proof. now intros h. Qed.

Lemma read_only_read (r : Ref) (name : string) : read_only (Store.read r name).
Proof. now intros h. Qed.

Lemma read_only_lift {A} (c : Completion A) : read_only (Esprima.lift c).
Proof. now intros h. Qed.

Lemma read_only_bind {A B} (m : M Heap A) (f : A -> M Heap B) :
  read_only m -> (forall a, read_only (f a)) -> read_only (m ≫= f).
Proof.
  intros Hm Hf h. unfold mbind, M_bind. specialize (Hm h).
  destruct (m h) as [[a|e|] h']; cbn [snd] in *; subst h'; [apply Hf|reflexivity..].
Qed.

End StoreFacts.

Create HintDb read_only.
#[local] Hint Resolve read_only_ret read_only_throw read_only_gets read_only_read
  read_only_lift : read_only.

Section ParseFacts.

Context {Node Metadata Program Comment : Type}.
Variable imports : @Esprima.Imports Node Metadata Program Comment.

(** What [parse] does to the store: it sets [comment] on the options
    object when it sets up a comment handler, and nothing else. *)
Lemma parse_store code (options : option Ref) (delegate : option Esprima.Visitor) h :
  snd (Esprima.parse imports code options delegate h) =
  match options with
  | Some r =>
      if handles_comments (Store.deref r h)
      then <[r := <["comment" := VBool true]> (Store.deref r h)]> h
      else h
  | None => h
  end.
Proof.
  unfold Esprima.parse.
  match goal with |- snd ((?first ≫= ?k) h) = _ =>
    set (m := first); set (rest := k) end.
  assert (Hrest : forall triple, read_only (rest triple)).
  { intros [[collectComment commentHandler] parserDelegate]. unfold rest.
    repeat (apply read_only_bind; [|intros ?]);
      repeat match goal with
             | |- read_only (match ?x with _ => _ end) => destruct x
             end;
      repeat (apply read_only_bind; [|intros ?]); auto with read_only. }
  destruct options as [r|].
  - unfold handles_comments.
    destruct (is_true (get_property (Store.deref r h) "comment")
              || is_true (get_property (Store.deref r h) "attachComment")) eqn:Hc.
    + erewrite bind_normal; [apply Hrest|].
      unfold m, mbind, M_bind, Store.read, Store.write, gets, modify. cbn.
      rewrite Hc. reflexivity.
    + erewrite bind_normal; [apply Hrest|].
      unfold m, mbind, M_bind, Store.read, Store.write, gets, modify. cbn.
      rewrite Hc. reflexivity.
  - erewrite bind_normal; [apply Hrest|]. reflexivity.
Qed.

End ParseFacts.

Section DispatchFacts.

Context {Node Metadata Program Comment : Type}.
Variable imports : @Esprima.Imports Node Metadata Program Comment.
Variable code : string.
Variable delegate : option (@Esprima.Visitor Node Metadata).

Lemma force_on_new_object (h : Heap) (name : string) (v : Value) :
  let r := fresh (dom h) in
  <[r := <[name := v]> (Store.deref r (<[r := ∅]> h))]> (<[r := ∅]> h)
  = <[r := <[name := v]> (Store.deref r h)]> h.
Proof.
  cbv zeta. rewrite deref_insert, deref_fresh. apply insert_insert_eq.
Qed.

(** The options object after [parse] on the store where [sourceType] has
    been forced: [sourceType] is the forced one, and the object is the
    forced one up to the [comment] property. *)
Lemma forced_then_parsed (sourceType : string) (r : Ref) (h : Heap) :
  let forced := <["sourceType" := VString sourceType]> (Store.deref r h) in
  exists o',
    snd (parse_with_sourceType imports sourceType code (Some r) delegate h) !! r = Some o'
    /\ get_property o' "sourceType" = VString sourceType
    /\ (o' = forced \/ o' = <["comment" := VBool true]> forced)
    /\ forall r', r' <> r ->
         snd (parse_with_sourceType imports sourceType code (Some r) delegate h) !! r'
         = h !! r'.
Proof.
  cbv zeta. unfold parse_with_sourceType. rewrite parse_store, deref_insert.
  set (forced := <["sourceType" := VString sourceType]> (Store.deref r h)).
  destruct (handles_comments forced).
  - exists (<["comment" := VBool true]> forced). rewrite lookup_insert_eq.
    repeat split; [|now right|].
    + unfold get_property, forced.
      rewrite lookup_insert_ne by discriminate. now rewrite lookup_insert_eq.
    + intros r' Hr'. now rewrite !lookup_insert_ne by congruence.
  - exists forced. rewrite lookup_insert_eq.
    repeat split; [|now left|].
    + unfold get_property, forced. now rewrite lookup_insert_eq.
    + intros r' Hr'. now rewrite lookup_insert_ne by congruence.
Qed.

(** When [parse] returns a program, it is the one the parser built from
    the options object as the call leaves it, through the entry point that
    its [sourceType] selects. *)
Lemma parse_entry (r : Ref) (h h' : Heap) ast :
  Esprima.parse imports code (Some r) delegate h = (Normal ast, h') ->
  let o := Store.deref r h' in
  exists parserDelegate,
    Esprima.outcome
      ((if is_module o then Esprima.run_parseModule else Esprima.run_parseScript)
         ((if is_true (get_property o "jsx")
           then Esprima.new_JSXParser imports else Esprima.new_Parser imports)
            code (Some o) parserDelegate))
    = inr (Esprima.program ast).
Proof.
  intros H. pose proof (f_equal snd H) as Hs.
  rewrite parse_store in Hs. cbn [snd] in Hs.
  cbv zeta. unfold Esprima.parse in H.
  unfold mbind, M_bind, Store.read, Store.write, gets, modify, mret, M_ret,
    throw, Esprima.lift in H.
  cbn [fst snd] in H. unfold handles_comments in Hs.
  destruct (is_true (get_property (Store.deref r h) "comment")
            || is_true (get_property (Store.deref r h) "attachComment")) eqn:Hc.
  - rewrite deref_insert in H. subst h'. rewrite deref_insert.
    set (o := <["comment" := VBool true]> (Store.deref r h)) in *.
    exists true. unfold is_module.
    destruct (match get_property o "sourceType" with
              | VString s => String.eqb s "module"
              | _ => false
              end), (is_true (get_property o "jsx"));
      match type of H with
      | match ?d with _ => _ end = _ => destruct d; [|discriminate H..]
      end;
      match type of H with
      | context [Esprima.outcome ?p] =>
          destruct (Esprima.outcome p); [discriminate H|]
      end;
      injection H as <-; reflexivity.
  - subst h'. set (o := Store.deref r h) in *.
    exists (bool_decide (is_Some delegate)). unfold is_module.
    destruct (match get_property o "sourceType" with
              | VString s => String.eqb s "module"
              | _ => false
              end), (is_true (get_property o "jsx"));
      match type of H with
      | match ?d with _ => _ end = _ => destruct d; [|discriminate H..]
      end;
      match type of H with
      | context [Esprima.outcome ?p] =>
          destruct (Esprima.outcome p); [discriminate H|]
      end;
      injection H as <-; reflexivity.
Qed.

(** So the program [parseModule] returns comes from [parser.parseModule()]
    and the one [parseScript] returns from [parser.parseScript()]. *)
Lemma parseModule_enters_module (r : Ref) (h h' : Heap) ast :
  Esprima.parseModule imports code (Some r) delegate h = (Normal ast, h') ->
  exists (jsx parserDelegate : bool) (o : Obj),
    Esprima.outcome
      (Esprima.run_parseModule
         ((if jsx then Esprima.new_JSXParser imports else Esprima.new_Parser imports)
            code (Some o) parserDelegate))
    = inr (Esprima.program ast).
Proof.
  intros H.
  change (parse_with_sourceType imports "module" code (Some r) delegate h
          = (Normal ast, h')) in H.
  destruct (forced_then_parsed "module" r h) as (o' & Ho' & Hst & _ & _).
  rewrite H in Ho'. cbn [snd] in Ho'.
  destruct (parse_entry r _ h' ast H) as [pd Hpd]. cbv zeta in Hpd.
  rewrite (deref_lookup r o' h' Ho') in Hpd.
  unfold is_module in Hpd. rewrite Hst in Hpd. cbn in Hpd.
  now exists (is_true (get_property o' "jsx")), pd, o'.
Qed.

Lemma parseScript_enters_script (r : Ref) (h h' : Heap) ast :
  Esprima.parseScript imports code (Some r) delegate h = (Normal ast, h') ->
  exists (jsx parserDelegate : bool) (o : Obj),
    Esprima.outcome
      (Esprima.run_parseScript
         ((if jsx then Esprima.new_JSXParser imports else Esprima.new_Parser imports)
            code (Some o) parserDelegate))
    = inr (Esprima.program ast).
Proof.
  intros H.
  change (parse_with_sourceType imports "script" code (Some r) delegate h
          = (Normal ast, h')) in H.
  destruct (forced_then_parsed "script" r h) as (o' & Ho' & Hst & _ & _).
  rewrite H in Ho'. cbn [snd] in Ho'.
  destruct (parse_entry r _ h' ast H) as [pd Hpd]. cbv zeta in Hpd.
  rewrite (deref_lookup r o' h' Ho') in Hpd.
  unfold is_module in Hpd. rewrite Hst in Hpd. cbn in Hpd.
  now exists (is_true (get_property o' "jsx")), pd, o'.
Qed.

End DispatchFacts.

(** C8.  [parseModule] returns what [parse] returns on the options with
    [sourceType] forced to [module], and [parseScript] likewise with
    [script]: the same completion and the same store, for every source,
    options argument (missing or not), delegate and store. *)
Theorem parseModule_parseScript_force_sourceType
    {Node Metadata Program Comment : Type}
    (imports : @Esprima.Imports Node Metadata Program Comment)
    (code : string) (options : option Ref)
    (delegate : option (@Esprima.Visitor Node Metadata)) (h : Heap) :
  Esprima.parseModule imports code options delegate h
  = parse_with_sourceType imports "module" code options delegate h
  /\ Esprima.parseScript imports code options delegate h
     = parse_with_sourceType imports "script" code options delegate h.
Proof.
  unfold parse_with_sourceType, Esprima.parseModule, Esprima.parseScript.
  destruct options as [r|].
  - split; reflexivity.
  - split.
    + erewrite bind_normal; [|reflexivity].
      erewrite bind_normal; [|reflexivity].
      now rewrite force_on_new_object.
    + erewrite bind_normal; [|reflexivity].
      erewrite bind_normal; [|reflexivity].
      now rewrite force_on_new_object.
Qed.



(** * Further properties *)

(** ** [tokenize] and [tokenizeC] on scripts with errors *)

Section ScriptsWithErrors.

Local Opaque Custom.isHTML JSString.slice JSString.split JSString.substring
  JSString.index JSString.length.

Lemma tokenize_loop_tolerant f events h tokens :
  ErrorHandler.tolerant h = true ->
  EsprimaLoop.finish (EsprimaLoop.tokenize_loop (returning <$> f) h events tokens)
  = Normal (Array.set_errors (ErrorHandler.errors h ++ recorded events)
              (push_all (map (pushed f) (yielded events)) tokens)).
Proof.
  revert h tokens. induction events as [|[t|e|e] rest IH]; intros h tokens Htol;
    cbn [EsprimaLoop.tokenize_loop yielded recorded map].
  - unfold EsprimaLoop.finish. cbn. rewrite Htol, app_nil_r. now rewrite push_all_nil.
  - rewrite transformed_returning. rewrite IH by assumption.
    fold (pushed f t). now rewrite set_errors_push_all.
  - rewrite Htol. rewrite IH by assumption. cbn. now rewrite <- app_assoc.
  - unfold EsprimaLoop.finish. cbn. rewrite Htol. now rewrite push_all_nil.
Qed.

Lemma tokenize_loop_strict f events h tokens :
  ErrorHandler.tolerant h = false ->
  EsprimaLoop.finish (EsprimaLoop.tokenize_loop (returning <$> f) h events tokens)
  = match first_error events with
    | Some e => Throw e
    | None => Normal (push_all (map (pushed f) (before_error events)) tokens)
    end.
Proof.
  revert tokens. induction events as [|[t|e|e] rest IH]; intros tokens Htol;
    cbn [EsprimaLoop.tokenize_loop before_error first_error map].
  - unfold EsprimaLoop.finish. cbn. rewrite Htol. now rewrite push_all_nil.
  - rewrite transformed_returning. rewrite IH by assumption.
    fold (pushed f t). destruct (first_error rest); [reflexivity|].
    now rewrite push_all_push.
  - rewrite Htol. unfold EsprimaLoop.finish. cbn. now rewrite Htol.
  - unfold EsprimaLoop.finish. cbn. now rewrite Htol.
Qed.

Lemma Custom_loop_tolerant f events h tokens html :
  ErrorHandler.tolerant h = true ->
  CustomLoop.finish (CustomLoop.loop (returning <$> f) h events tokens html)
  = Normal {| Custom.result_tokens :=
                Array.set_errors (ErrorHandler.errors h ++ recorded events)
                  (push_all (CustomLoop.plain (yielded events)) tokens);
              Custom.result_html_tokens := html ++ CustomLoop.markup (yielded events) |}.
Proof.
  revert h tokens html.
  induction events as [|[[|t]|e|e] rest IH]; intros h tokens html Htol;
    cbn [CustomLoop.loop yielded recorded].
  - unfold CustomLoop.finish. cbn. rewrite Htol, !app_nil_r. now rewrite push_all_nil.
  - now apply IH.
  - assert (Hafter : CustomLoop.after_token (returning <$> f) t
                     = inr (CustomLoop.classify (Custom.Tok t))).
    { destruct f as [f|]; cbn [fmap option_fmap option_map];
        [rewrite after_token_returning|]; apply after_token_None. }
    rewrite Hafter. destruct (CustomLoop.classify (Custom.Tok t)) as [ws fs] eqn:Hc.
    rewrite IH by assumption.
    unfold CustomLoop.plain, CustomLoop.markup. cbn [flat_map]. rewrite Hc.
    cbn [fst snd]. rewrite push_all_app. now rewrite <- app_assoc.
  - rewrite Htol. rewrite IH by assumption. cbn. now rewrite <- app_assoc.
  - unfold CustomLoop.finish. cbn. rewrite Htol, app_nil_r. now rewrite push_all_nil.
Qed.

Lemma Custom_loop_strict f events h tokens html :
  ErrorHandler.tolerant h = false ->
  CustomLoop.finish (CustomLoop.loop (returning <$> f) h events tokens html)
  = match first_error events with
    | Some e => Throw e
    | None =>
        Normal {| Custom.result_tokens :=
                    push_all (CustomLoop.plain (before_error events)) tokens;
                  Custom.result_html_tokens :=
                    html ++ CustomLoop.markup (before_error events) |}
    end.
Proof.
  revert tokens html.
  induction events as [|[[|t]|e|e] rest IH]; intros tokens html Htol;
    cbn [CustomLoop.loop before_error first_error].
  - unfold CustomLoop.finish. cbn. rewrite Htol, app_nil_r. now rewrite push_all_nil.
  - rewrite IH by assumption. reflexivity.
  - assert (Hafter : CustomLoop.after_token (returning <$> f) t
                     = inr (CustomLoop.classify (Custom.Tok t))).
    { destruct f as [f|]; cbn [fmap option_fmap option_map];
        [rewrite after_token_returning|]; apply after_token_None. }
    rewrite Hafter. destruct (CustomLoop.classify (Custom.Tok t)) as [ws fs] eqn:Hc.
    rewrite IH by assumption. destruct (first_error rest); [reflexivity|].
    unfold CustomLoop.plain, CustomLoop.markup. cbn [flat_map]. rewrite Hc.
    cbn [fst snd]. rewrite push_all_app. now rewrite <- app_assoc.
  - rewrite Htol. unfold CustomLoop.finish. cbn. now rewrite Htol.
  - unfold CustomLoop.finish. cbn. now rewrite Htol.
Qed.

End ScriptsWithErrors.

(** X1.  [tokenize] on any script, with no delegate or one that returns.
    In tolerant mode it always returns: the array holds one entry for every
    token scanned before the first raised error, in order, and its [errors]
    list holds every error met, in order, the raised one last.  In strict
    mode the first error of either kind is raised and the tokens scanned so
    far are lost; without an error the array holds every token and has no
    [errors] property. *)
Theorem tokenize_on_any_script
    (scan : string -> option Obj -> list (Tokenizer.Event Token))
    (code : string) (options : option Obj) (f : option (Token -> Value)) :
  Esprima.tokenize scan code options (returning <$> f)
  = if option_set options "tolerant"
    then Normal {| Array.elements := map (pushed f) (yielded (scan code options));
                   Array.errors := Some (recorded (scan code options)) |}
    else match first_error (scan code options) with
         | Some e => Throw e
         | None =>
             Normal {| Array.elements :=
                         map (pushed f) (before_error (scan code options));
                       Array.errors := None |}
         end.
Proof.
  rewrite Esprima_tokenize_loop.
  destruct (option_set options "tolerant") eqn:Htol.
  - now rewrite tokenize_loop_tolerant.
  - now rewrite tokenize_loop_strict.
Qed.

(** X2.  [tokenizeC] of the copy with markup detection on any script, with
    no delegate or one that returns.  In tolerant mode it always returns
    what the items scanned before the first raised error classify to, with
    every error met in the [errors] list of [tokens]; in strict mode the
    first error of either kind is raised and nothing is returned. *)
Theorem Custom_tokenizeC_on_any_script
    (scan : string -> option Obj -> list (Tokenizer.Event Custom.Item))
    (code : string) (options : option Obj) (f : option (Token -> Value)) :
  Custom.tokenizeC scan code options (returning <$> f)
  = if option_set options "tolerant"
    then Normal {| Custom.result_tokens :=
                     {| Array.elements := CustomLoop.plain (yielded (scan code options));
                        Array.errors := Some (recorded (scan code options)) |};
                   Custom.result_html_tokens :=
                     CustomLoop.markup (yielded (scan code options)) |}
    else match first_error (scan code options) with
         | Some e => Throw e
         | None =>
             Normal {| Custom.result_tokens :=
                         {| Array.elements :=
                              CustomLoop.plain (before_error (scan code options));
                            Array.errors := None |};
                       Custom.result_html_tokens :=
                         CustomLoop.markup (before_error (scan code options)) |}
         end.
Proof.
  rewrite Custom_tokenizeC_loop.
  destruct (option_set options "tolerant") eqn:Htol.
  - now rewrite Custom_loop_tolerant.
  - now rewrite Custom_loop_strict.
Qed.

(** ** A delegate that raises *)

Section RaisingDelegate.

Local Opaque Custom.isHTML JSString.slice JSString.split JSString.substring
  JSString.index JSString.length.

Lemma tokenize_loop_delegate_raises (d : Delegate) (g : Token -> Value)
    items1 t items2 e h tokens :
  Forall (fun t' => d t' = Returns (g t')) items1 ->
  d t = Raises e ->
  EsprimaLoop.tokenize_loop (Some d) h (quiet (items1 ++ t :: items2)) tokens
  = (Throw e, EsprimaLoop.locals h (quiet items2) (push_all (map g items1) tokens)).
Proof.
  intros Hret Hraise. revert tokens.
  induction Hret as [|t' items1 Ht' _ IH]; intros tokens;
    cbn [app quiet map EsprimaLoop.tokenize_loop]; unfold EsprimaLoop.transformed.
  - rewrite Hraise. now rewrite push_all_nil.
  - rewrite Ht'. fold (quiet (items1 ++ t :: items2)). rewrite IH.
    now rewrite push_all_push.
Qed.

Lemma Custom_loop_delegate_raises (d : Delegate) items1 t items2 e h tokens html :
  (forall t', In (Custom.Tok t') items1 ->
              String.eqb (type t') "String" || String.eqb (type t') "Template" = false ->
              raised (d t') = None) ->
  String.eqb (type t) "String" || String.eqb (type t) "Template" = false ->
  d t = Raises e ->
  CustomLoop.loop (Some d) h (quiet (items1 ++ Custom.Tok t :: items2)) tokens html
  = (Throw e,
     CustomLoop.locals h (quiet items2)
       (push_all (CustomLoop.plain items1) tokens)
       (html ++ CustomLoop.markup items1)).
Proof.
  intros Hret Hother Hraise. revert tokens html.
  induction items1 as [|[|t'] items1 IH]; intros tokens html;
    cbn [app quiet map CustomLoop.loop].
  - unfold CustomLoop.after_token.
    destruct (String.eqb (type t) "String"); [discriminate Hother|].
    destruct (String.eqb (type t) "Template"); [discriminate Hother|].
    rewrite Hraise. unfold CustomLoop.plain, CustomLoop.markup. cbn [flat_map].
    now rewrite push_all_nil, app_nil_r.
  - fold (quiet (items1 ++ Custom.Tok t :: items2)).
    rewrite IH by (intros; apply Hret; [now right|assumption]). reflexivity.
  - fold (quiet (items1 ++ Custom.Tok t :: items2)).
    assert (Hafter : CustomLoop.after_token (Some d) t'
                     = inr (CustomLoop.classify (Custom.Tok t'))).
    { destruct (String.eqb (type t') "String" || String.eqb (type t') "Template") eqn:Hl.
      - now apply after_token_literal.
      - apply after_token_other_returns; [assumption|].
        apply Hret; [now left|assumption]. }
    rewrite Hafter. destruct (CustomLoop.classify (Custom.Tok t')) as [ws fs] eqn:Hc.
    rewrite IH by (intros; apply Hret; [now right|assumption]).
    unfold CustomLoop.plain, CustomLoop.markup. cbn [flat_map]. rewrite Hc.
    cbn [fst snd]. rewrite push_all_app. now rewrite <- app_assoc.
Qed.

End RaisingDelegate.

(** X3.  An error the delegate raises is handled by [tokenize] like an
    error of the scanner.  When the delegate returns on the tokens of
    [items1] and raises [e] on the next token, tolerant mode returns the
    entries of [items1] with [e] in the [errors] list, strict mode raises
    [e]; the tokens after it are never scanned. *)
Theorem tokenize_delegate_raises
    (d : Delegate) (g : Token -> Value) (items1 items2 : list Token) (t : Token)
    (e : Error) (code : string) (options : option Obj) :
  Forall (fun t' => d t' = Returns (g t')) items1 ->
  d t = Raises e ->
  Esprima.tokenize (fun _ _ => quiet (items1 ++ t :: items2)) code options (Some d)
  = if option_set options "tolerant"
    then Normal {| Array.elements := map g items1; Array.errors := Some [e] |}
    else Throw e.
Proof.
  intros Hret Hraise. rewrite Esprima_tokenize_loop.
  rewrite (tokenize_loop_delegate_raises d g items1 t items2 e) by assumption.
  unfold EsprimaLoop.finish. cbn.
  now destruct (option_set options "tolerant").
Qed.

(** The theorem above with a delegate that raises on punctuators only. *)
Lemma tokenize_delegate_raises_witness :
  let e := {| message := "no punctuators"; index := 2; lineNumber := 1; column := 2 |} in
  let d : Delegate := fun t =>
    if String.eqb (type t) "Punctuator" then Raises e else Returns (VString (value t)) in
  let x := {| type := "Identifier"; value := "x" |} in
  let semi := {| type := "Punctuator"; value := ";" |} in
  Esprima.tokenize (fun _ _ => quiet ([x] ++ semi :: [x])) "x ; x"
    (Some {[ "tolerant" := VBool true ]}) (Some d)
  = if option_set (Some {[ "tolerant" := VBool true ]}) "tolerant"
    then Normal {| Array.elements := map (fun t => VString (value t)) [x];
                   Array.errors := Some [e] |}
    else Throw e.
Proof.
  refine (tokenize_delegate_raises
            (fun t =>
               if String.eqb (type t) "Punctuator"
               then Raises {| message := "no punctuators"; index := 2;
                              lineNumber := 1; column := 2 |}
               else Returns (VString (value t)))
            (fun t => VString (value t))
            [{| type := "Identifier"; value := "x" |}]
            [{| type := "Identifier"; value := "x" |}]
            {| type := "Punctuator"; value := ";" |}
            {| message := "no punctuators"; index := 2; lineNumber := 1; column := 2 |}
            "x ; x" (Some {[ "tolerant" := VBool true ]}) _ eq_refl).
  repeat constructor.
Defined.

(** X4.  In the copy with markup detection the delegate is called on the
    tokens other than string and template literals only, and before the
    value of the token is pushed.  When the delegate raises [e] on such a
    token [t], whatever it does on literals, tolerant mode returns what the
    items before [t] classify to, without the value of [t] and with [e] in
    the [errors] list; strict mode raises [e]. *)
Theorem Custom_tokenizeC_delegate_raises
    (d : Delegate) (items1 items2 : list Custom.Item) (t : Token)
    (e : Error) (code : string) (options : option Obj) :
  (forall t', In (Custom.Tok t') items1 ->
              String.eqb (type t') "String" || String.eqb (type t') "Template" = false ->
              raised (d t') = None) ->
  String.eqb (type t) "String" || String.eqb (type t) "Template" = false ->
  d t = Raises e ->
  Custom.tokenizeC (fun _ _ => quiet (items1 ++ Custom.Tok t :: items2))
    code options (Some d)
  = if option_set options "tolerant"
    then Normal {| Custom.result_tokens :=
                     {| Array.elements := CustomLoop.plain items1;
                        Array.errors := Some [e] |};
                   Custom.result_html_tokens := CustomLoop.markup items1 |}
    else Throw e.
Proof.
  intros Hret Hother Hraise. rewrite Custom_tokenizeC_loop.
  rewrite (Custom_loop_delegate_raises d items1 t items2 e) by assumption.
  unfold CustomLoop.finish. cbn.
  now destruct (option_set options "tolerant").
Qed.

(** The theorem above with a delegate that returns on identifiers only:
    the string literal before the punctuator does not reach it. *)
Lemma Custom_tokenizeC_delegate_raises_witness :
  let e := {| message := "identifiers only"; index := 0; lineNumber := 1; column := 0 |} in
  let d : Delegate := fun t =>
    if String.eqb (type t) "Identifier" then Returns VNull else Raises e in
  let x := Custom.Tok {| type := "Identifier"; value := "x" |} in
  let lit := Custom.Tok {| type := "String"; value := "'one two'" |} in
  let semi := {| type := "Punctuator"; value := ";" |} in
  Custom.tokenizeC (fun _ _ => quiet ([x; lit] ++ Custom.Tok semi :: [x])) "x 'one two' ; x"
    None (Some d)
  = if option_set None "tolerant"
    then Normal {| Custom.result_tokens :=
                     {| Array.elements := CustomLoop.plain [x; lit];
                        Array.errors := Some [e] |};
                   Custom.result_html_tokens := CustomLoop.markup [x; lit] |}
    else Throw e.
Proof.
  refine (Custom_tokenizeC_delegate_raises
            (fun t =>
               if String.eqb (type t) "Identifier" then Returns VNull
               else Raises {| message := "identifiers only"; index := 0;
                              lineNumber := 1; column := 0 |})
            [Custom.Tok {| type := "Identifier"; value := "x" |};
             Custom.Tok {| type := "String"; value := "'one two'" |}]
            [Custom.Tok {| type := "Identifier"; value := "x" |}]
            {| type := "Punctuator"; value := ";" |}
            {| message := "identifiers only"; index := 0; lineNumber := 1; column := 0 |}
            "x 'one two' ; x" None _ eq_refl eq_refl).
  intros t' [Hx|[Hlit|[]]] Hother.
  - injection Hx as <-. reflexivity.
  - injection Hlit as <-. discriminate Hother.
Defined.

(** ** [tokenizeC] of [src/esprima.ts]: where it stops *)

Section EsprimaStops.

Local Opaque JSString.slice JSString.split JSString.substring
  JSString.index JSString.length.

Lemma entries_identifiers f ids rest :
  forallb is_identifier ids = true ->
  EsprimaLoop.entries f (ids ++ rest)
  = map (pushed f) ids ++ EsprimaLoop.entries f rest.
Proof.
  induction ids as [|t ids IH]; [reflexivity|].
  cbn [forallb]. intros [Ht Hids]%andb_true_iff.
  cbn [app EsprimaLoop.entries map]. unfold is_identifier in Ht.
  apply andb_true_iff in Ht as [Hty Hval]. apply negb_true_iff in Hval.
  unfold EsprimaLoop.stops. rewrite Hval, Hty. cbn [negb andb orb].
  apply String.eqb_eq in Hty. rewrite Hty. cbn [String.eqb Ascii.eqb Bool.eqb].
  fold (pushed f t). now rewrite IH.
Qed.

Lemma entries_literal f t rest :
  is_literal t = true ->
  EsprimaLoop.entries f (t :: rest) = EsprimaLoop.pieces (type t) (unwrap t).
Proof.
  unfold is_literal. intros [Hty Hval]%andb_true_iff. apply negb_true_iff in Hval.
  cbn [EsprimaLoop.entries]. unfold EsprimaLoop.stops, unwrap. rewrite Hval.
  destruct (String.eqb (type t) "String") eqn:HS.
  - rewrite !andb_false_r. reflexivity.
  - cbn [orb] in Hty. rewrite Hty. rewrite andb_false_r. reflexivity.
Qed.

End EsprimaStops.

(** X5.  [tokenizeC] of [src/esprima.ts] leaves its loop after the first
    string or template literal.  On a token stream that starts with
    identifiers followed by a literal, it returns the entries of the
    identifiers and then one [{type, value}] entry per space-separated piece
    of the literal, and nothing for whatever follows the literal. *)
Theorem Esprima_tokenizeC_stops_after_literal
    (ids rest : list Token) (lit : Token)
    (code : string) (options : option Obj) (f : option (Token -> Value)) :
  forallb is_identifier ids = true ->
  is_literal lit = true ->
  Esprima.tokenizeC (fun _ _ => quiet (ids ++ lit :: rest)) code options (returning <$> f)
  = Normal {| Array.elements :=
                map (pushed f) ids
                ++ map (fun e => VToken {| type := type lit; value := strip_quotes e |})
                       (JSString.split " " (unwrap lit));
              Array.errors := if option_set options "tolerant" then Some [] else None |}.
Proof.
  intros Hids Hlit. rewrite Esprima_tokenizeC_quiet.
  rewrite entries_identifiers by assumption.
  now rewrite entries_literal by assumption.
Qed.

(** The theorem above on [a b 'one two' 'three']. *)
Lemma Esprima_tokenizeC_stops_after_literal_witness :
  let a := {| type := "Identifier"; value := "a" |} in
  let b := {| type := "Identifier"; value := "b" |} in
  let lit := {| type := "String"; value := "'one two'" |} in
  let more := {| type := "String"; value := "'three'" |} in
  Esprima.tokenizeC (fun _ _ => quiet ([a; b] ++ lit :: [more])) "a b 'one two' 'three'"
    None (returning <$> None)
  = Normal {| Array.elements :=
                map (pushed None) [a; b]
                ++ map (fun e => VToken {| type := type lit; value := strip_quotes e |})
                       (JSString.split " " (unwrap lit));
              Array.errors := if option_set None "tolerant" then Some [] else None |}.
Proof.
  exact (Esprima_tokenizeC_stops_after_literal
           [{| type := "Identifier"; value := "a" |};
            {| type := "Identifier"; value := "b" |}]
           [{| type := "String"; value := "'three'" |}]
           {| type := "String"; value := "'one two'" |}
           "a b 'one two' 'three'" None None eq_refl eq_refl).
Defined.

(** X6.  A token with an empty value stops [tokenizeC] of
    [src/esprima.ts], whatever its type: the function returns what it
    returns on the script cut before that token. *)
Theorem Esprima_tokenizeC_stops_at_empty_value
    (before after : list (Tokenizer.Event Token)) (t : Token)
    (code : string) (options : option Obj) (delegate : option Delegate) :
  value t = EmptyString ->
  Esprima.tokenizeC (fun _ _ => before ++ Tokenizer.Yields t :: after) code options delegate
  = Esprima.tokenizeC (fun _ _ => before) code options delegate.
Proof.
  intros Hval. rewrite !Esprima_tokenizeC_loop. apply Esprima_loop_stops.
  unfold EsprimaLoop.stops. now rewrite Hval.
Qed.

(** The theorem above on an identifier, an empty template chunk and a
    string literal. *)
Lemma Esprima_tokenizeC_stops_at_empty_value_witness :
  let x := Tokenizer.Yields {| type := "Identifier"; value := "x" |} in
  let empty := {| type := "Template"; value := EmptyString |} in
  let lit := Tokenizer.Yields {| type := "String"; value := "'one'" |} in
  Esprima.tokenizeC (fun _ _ => [x] ++ Tokenizer.Yields empty :: [lit]) "x" None None
  = Esprima.tokenizeC (fun _ _ => [x]) "x" None None.
Proof.
  exact (Esprima_tokenizeC_stops_at_empty_value
           [Tokenizer.Yields {| type := "Identifier"; value := "x" |}]
           [Tokenizer.Yields {| type := "String"; value := "'one'" |}]
           {| type := "Template"; value := EmptyString |}
           "x" None None eq_refl).
Defined.

(** X7.  On a token stream of identifiers alone, [tokenizeC] of
    [src/esprima.ts] returns what [tokenize] returns. *)
Theorem Esprima_tokenizeC_on_identifiers
    (ids : list Token) (code : string) (options : option Obj)
    (f : option (Token -> Value)) :
  forallb is_identifier ids = true ->
  Esprima.tokenizeC (fun _ _ => quiet ids) code options (returning <$> f)
  = Esprima.tokenize (fun _ _ => quiet ids) code options (returning <$> f).
Proof.
  intros Hids. rewrite Esprima_tokenizeC_quiet.
  rewrite Esprima_tokenize_loop, Esprima_tokenize_loop_quiet.
  rewrite <- (app_nil_r ids) at 1. rewrite entries_identifiers by assumption.
  cbn [EsprimaLoop.entries]. rewrite app_nil_r.
  unfold EsprimaLoop.finish. cbn. fold (pushed f).
  now destruct (option_set options "tolerant").
Qed.

(** The theorem above on two identifiers. *)
Lemma Esprima_tokenizeC_on_identifiers_witness :
  let ids := [{| type := "Identifier"; value := "a" |};
              {| type := "Identifier"; value := "b" |}] in
  Esprima.tokenizeC (fun _ _ => quiet ids) "a b" None (returning <$> Some VToken)
  = Esprima.tokenize (fun _ _ => quiet ids) "a b" None (returning <$> Some VToken).
Proof.
  exact (Esprima_tokenizeC_on_identifiers
           [{| type := "Identifier"; value := "a" |};
            {| type := "Identifier"; value := "b" |}]
           "a b" None (Some VToken) eq_refl).
Defined.

(** ** The pieces of a literal *)

Section Pieces.

Lemma split_length (sep : ascii) (s : string) :
  List.length (JSString.split sep s) = S (occurrences sep s).
Proof.
  induction s as [|c s IH]; [reflexivity|].
  cbn [JSString.split occurrences]. destruct (Ascii.eqb c sep).
  - cbn [List.length]. now rewrite IH.
  - destruct (JSString.split sep s) as [|piece pieces]; [discriminate IH|exact IH].
Qed.

Lemma split_no_separator (sep : ascii) (s : string) :
  Forall (fun piece => occurrences sep piece = 0%nat) (JSString.split sep s).
Proof.
  induction s as [|c s IH]; [repeat constructor|].
  cbn [JSString.split]. destruct (Ascii.eqb c sep) eqn:Hc.
  - constructor; [reflexivity|exact IH].
  - destruct (JSString.split sep s) as [|piece pieces]; [repeat constructor; cbn; now rewrite Hc|].
    inversion IH as [|? ? Hpiece Hpieces]; subst.
    constructor; [|exact Hpieces]. cbn [occurrences]. now rewrite Hc, Hpiece.
Qed.

Lemma occurrences_substring (c : ascii) (n m : nat) (s : string) :
  (occurrences c (String.substring n m s) <= occurrences c s)%nat.
Proof.
  revert n m. induction s as [|a s IH]; intros n m.
  - destruct n, m; cbn; lia.
  - destruct n as [|n].
    + destruct m as [|m]; cbn [String.substring occurrences]; [lia|].
      specialize (IH 0%nat m). lia.
    + cbn [String.substring occurrences]. specialize (IH n m). lia.
Qed.

Lemma occurrences_slice (c : ascii) (s : string) (a b : Z) :
  occurrences c s = 0%nat -> occurrences c (JSString.slice s a b) = 0%nat.
Proof.
  intros H. unfold JSString.slice.
  pose proof (occurrences_substring c
                (Z.to_nat (JSString.relative (JSString.length s) a))
                (Z.to_nat (Z.max (JSString.relative (JSString.length s) b
                                  - JSString.relative (JSString.length s) a) 0)) s).
  lia.
Qed.

Lemma occurrences_strip_quotes (c : ascii) (e : string) :
  occurrences c e = 0%nat -> occurrences c (strip_quotes e) = 0%nat.
Proof.
  intros H. unfold strip_quotes.
  destruct (_ || _); [now apply occurrences_slice|exact H].
Qed.

Lemma occurrences_strip_selector (c : ascii) (e : string) :
  occurrences c e = 0%nat -> occurrences c (strip_selector e) = 0%nat.
Proof.
  intros H. unfold strip_selector.
  destruct (_ || _); [now apply occurrences_slice|exact H].
Qed.

End Pieces.

Section LiteralFacts.

Local Opaque Custom.isHTML JSString.slice JSString.split JSString.substring
  JSString.index JSString.length.

Lemma classify_literal (t : Token) :
  String.eqb (type t) "String" || String.eqb (type t) "Template" = true ->
  CustomLoop.classify (Custom.Tok t)
  = if Custom.isHTML (unwrap t) then ([], [unwrap t])
    else (map (if String.eqb (type t) "String"
               then fun e => strip_selector (strip_quotes e)
               else strip_quotes)
              (JSString.split " " (unwrap t)), []).
Proof.
  intros H. unfold CustomLoop.classify, CustomLoop.after_token, unwrap.
  destruct (String.eqb (type t) "String").
  - now destruct (Custom.isHTML _).
  - cbn [orb] in H. rewrite H. now destruct (Custom.isHTML _).
Qed.

End LiteralFacts.

(** X8.  What the copy with markup detection does with one string or
    template literal.  A literal whose unwrapped text [isHTML] accepts adds
    that text, whole, to [html_tokens] and nothing to [tokens].  Any other
    literal adds nothing to [html_tokens] and one plain token per
    space-separated piece: one more than the text has spaces, so that two
    spaces in a row give an empty token, and no token contains a space. *)
Theorem Custom_tokenizeC_literal
    (t : Token) (code : string) (options : option Obj) (f : option (Token -> Value)) :
  String.eqb (type t) "String" || String.eqb (type t) "Template" = true ->
  exists words fragments,
    Custom.tokenizeC (fun _ _ => quiet [Custom.Tok t]) code options (returning <$> f)
    = Normal {| Custom.result_tokens :=
                  {| Array.elements := words;
                     Array.errors :=
                       if option_set options "tolerant" then Some [] else None |};
                Custom.result_html_tokens := fragments |}
    /\ if Custom.isHTML (unwrap t)
       then words = [] /\ fragments = [unwrap t]
       else fragments = []
            /\ List.length words = S (occurrences " " (unwrap t))
            /\ Forall (fun w => occurrences " " w = 0%nat) words.
Proof.
  intros Hlit.
  exists (CustomLoop.plain [Custom.Tok t]), (CustomLoop.markup [Custom.Tok t]).
  split; [apply Custom_tokenizeC_quiet|].
  unfold CustomLoop.plain, CustomLoop.markup. cbn [flat_map].
  rewrite !app_nil_r, (classify_literal t Hlit).
  destruct (Custom.isHTML (unwrap t)); cbn [fst snd]; [now split|].
  split; [reflexivity|]. split.
  - now rewrite length_map, split_length.
  - apply Forall_map.
    eapply Forall_impl; [apply (split_no_separator " ")|].
    intros piece Hpiece. cbn beta.
    destruct (String.eqb (type t) "String").
    + now apply occurrences_strip_selector, occurrences_strip_quotes.
    + now apply occurrences_strip_quotes.
Qed.

(** The theorem above on the template literal with two spaces in a row. *)
Lemma Custom_tokenizeC_literal_witness :
  let t := {| type := "Template"; value := "`one  two`" |} in
  exists words fragments,
    Custom.tokenizeC (fun _ _ => quiet [Custom.Tok t]) "`one  two`" None (returning <$> None)
    = Normal {| Custom.result_tokens :=
                  {| Array.elements := words;
                     Array.errors := if option_set None "tolerant" then Some [] else None |};
                Custom.result_html_tokens := fragments |}
    /\ if Custom.isHTML (unwrap t)
       then words = [] /\ fragments = [unwrap t]
       else fragments = []
            /\ List.length words = S (occurrences " " (unwrap t))
            /\ Forall (fun w => occurrences " " w = 0%nat) words.
Proof.
  exact (Custom_tokenizeC_literal {| type := "Template"; value := "`one  two`" |}
           "`one  two`" None None eq_refl).
Defined.

(** X9.  What [tokenizeC] of [src/esprima.ts] does with a literal at the
    head of the stream: one entry per space-separated piece of its unwrapped
    text, one more than the text has spaces, each of the type of the literal
    and with a value that contains no space. *)
Theorem Esprima_tokenizeC_literal
    (lit : Token) (rest : list Token)
    (code : string) (options : option Obj) (f : option (Token -> Value)) :
  is_literal lit = true ->
  exists entries,
    Esprima.tokenizeC (fun _ _ => quiet (lit :: rest)) code options (returning <$> f)
    = Normal {| Array.elements := entries;
                Array.errors := if option_set options "tolerant" then Some [] else None |}
    /\ List.length entries = S (occurrences " " (unwrap lit))
    /\ Forall (fun entry => exists w, entry = VToken {| type := type lit; value := w |}
                                      /\ occurrences " " w = 0%nat) entries.
Proof.
  intros Hlit. eexists. split.
  - rewrite Esprima_tokenizeC_quiet. now rewrite entries_literal.
  - unfold EsprimaLoop.pieces. split.
    + now rewrite length_map, split_length.
    + apply Forall_map.
      eapply Forall_impl; [apply (split_no_separator " ")|].
      intros piece Hpiece. cbn beta. eexists. split; [reflexivity|].
      now apply occurrences_strip_quotes.
Qed.

(** The theorem above on ['one two'] followed by an identifier. *)
Lemma Esprima_tokenizeC_literal_witness :
  let lit := {| type := "String"; value := "'one two'" |} in
  let x := {| type := "Identifier"; value := "x" |} in
  exists entries,
    Esprima.tokenizeC (fun _ _ => quiet (lit :: [x])) "'one two' x" None (returning <$> None)
    = Normal {| Array.elements := entries;
                Array.errors := if option_set None "tolerant" then Some [] else None |}
    /\ List.length entries = S (occurrences " " (unwrap lit))
    /\ Forall (fun entry => exists w, entry = VToken {| type := type lit; value := w |}
                                      /\ occurrences " " w = 0%nat) entries.
Proof.
  exact (Esprima_tokenizeC_literal {| type := "String"; value := "'one two'" |}
           [{| type := "Identifier"; value := "x" |}] "'one two' x" None None eq_refl).
Defined.

(** X10.  The copy with markup detection skips the empty objects its
    tokenizer delivers: it returns on a token stream what it returns on the
    stream without them. *)
Theorem Custom_tokenizeC_skips_empty_objects
    (items : list Custom.Item) (code : string) (options : option Obj)
    (f : option (Token -> Value)) :
  Custom.tokenizeC (fun _ _ => quiet items) code options (returning <$> f)
  = Custom.tokenizeC (fun _ _ => quiet (List.filter carries_token items))
      code options (returning <$> f).
Proof.
  rewrite !Custom_tokenizeC_quiet.
  assert (H : CustomLoop.plain items = CustomLoop.plain (List.filter carries_token items)
              /\ CustomLoop.markup items
                 = CustomLoop.markup (List.filter carries_token items)).
  { unfold CustomLoop.plain, CustomLoop.markup.
    induction items as [|[|t] items [IH1 IH2]]; [now split|now split|].
    cbn [List.filter carries_token flat_map]. now rewrite IH1, IH2. }
  destruct H as [-> ->]. reflexivity.
Qed.

(** ** The delimiters of a template chunk *)

Section TemplateChunks.

Lemma append_empty (s : string) : s +:+ EmptyString = s.
Proof.
  induction s as [|c s IH]; [reflexivity|].
  change (String c s +:+ EmptyString) with (String c (s +:+ EmptyString)).
  now rewrite IH.
Qed.

Lemma substring_all (s : string) : String.substring 0 (String.length s) s = s.
Proof.
  transitivity (String.substring 0 (String.length s) (s +:+ EmptyString));
    [now rewrite append_empty|apply substring_prefix].
Qed.

Lemma get_after (a : string) (l : ascii) (b : string) :
  String.get (String.length a) (a +:+ String l b) = Some l.
Proof. induction a as [|c a IH]; [reflexivity|exact IH]. Qed.

Lemma get_occurs (n : nat) (s : string) (x : ascii) :
  String.get n s = Some x -> occurrences x s <> 0%nat.
Proof.
  revert n. induction s as [|c s IH]; intros n H; [now destruct n|].
  destruct n as [|n]; cbn [String.get occurrences] in *.
  - injection H as ->. rewrite Ascii.eqb_refl. lia.
  - specialize (IH n H). lia.
Qed.

Lemma index_get (s : string) (i : Z) :
  0 <= i -> JSString.index s i = String.get (Z.to_nat i) s.
Proof.
  intros Hi. unfold JSString.index.
  now replace (i <? 0) with false by (symmetry; apply Z.ltb_ge; lia).
Qed.

Lemma index_absent (s : string) (i : Z) (x : ascii) :
  occurrences x s = 0%nat -> JSString.index s i <> Some x.
Proof.
  intros Hocc H. unfold JSString.index in H.
  destruct (i <? 0); [discriminate H|]. now apply get_occurs in H.
Qed.

Lemma slice_from_to (s : string) (from to : nat) :
  (from <= to <= String.length s)%nat ->
  JSString.slice s (Z.of_nat from) (Z.of_nat to)
  = String.substring from (to - from) s.
Proof.
  intros H. unfold JSString.slice, JSString.relative, JSString.length.
  replace (Z.of_nat from <? 0) with false by (symmetry; apply Z.ltb_ge; lia).
  replace (Z.of_nat to <? 0) with false by (symmetry; apply Z.ltb_ge; lia).
  f_equal; lia.
Qed.

Lemma occurrences_append (c : ascii) (a b : string) :
  occurrences c (a +:+ b) = (occurrences c a + occurrences c b)%nat.
Proof.
  induction a as [|x a IH]; [reflexivity|].
  change (String x a +:+ b) with (String x (a +:+ b)).
  cbn [occurrences]. rewrite IH. lia.
Qed.

(** The backticks, and nothing else, are cut off a template chunk. *)
Lemma unwrap_template_chunk (opened closed : bool) (body : string) :
  occurrences backtick body = 0%nat ->
  unwrap_template (template_chunk opened closed body) = body.
Proof.
  intros Hocc. unfold unwrap_template, template_chunk.
  destruct opened, closed;
    [ change (String backtick EmptyString +:+ body +:+ String backtick EmptyString)
        with (String backtick (body +:+ String backtick EmptyString))
    | change (String backtick EmptyString +:+ body +:+ EmptyString)
        with (String backtick (body +:+ EmptyString))
    | change (EmptyString +:+ body +:+ String backtick EmptyString)
        with (body +:+ String backtick EmptyString)
    | change (EmptyString +:+ body +:+ EmptyString) with (body +:+ EmptyString) ];
    rewrite ?append_empty.
  - (* opened and closed *)
    rewrite bool_decide_eq_true_2 by reflexivity.
    rewrite bool_decide_eq_true_2.
    2:{ rewrite index_get
          by (unfold JSString.length; cbn [String.length]; lia).
        unfold JSString.length. cbn [String.length].
        replace (Z.to_nat (Z.of_nat (S (String.length (body +:+ String backtick EmptyString))) - 1))
          with (S (String.length body)) by (rewrite length_append; cbn; lia).
        cbn [String.get]. apply get_after. }
    apply slice_inner.
  - (* opened only *)
    rewrite bool_decide_eq_true_2 by reflexivity.
    destruct body as [|c body].
    + reflexivity.
    + rewrite bool_decide_eq_false_2.
      2:{ rewrite index_get
            by (unfold JSString.length; cbn [String.length]; lia).
          unfold JSString.length. cbn [String.length].
          replace (Z.to_nat (Z.of_nat (S (S (String.length body))) - 1))
            with (S (String.length body)) by lia.
          change (String.get (S (String.length body)) (String backtick (String c body)))
            with (String.get (String.length body) (String c body)).
          intros H. now apply get_occurs in H. }
      unfold JSString.length.
      change 1 with (Z.of_nat 1).
      rewrite slice_from_to by (cbn [String.length]; lia).
      replace (String.length (String backtick (String c body)) - 1)%nat
        with (String.length (String c body)) by (cbn [String.length]; lia).
      change (String.substring 1 (String.length (String c body))
                (String backtick (String c body)))
        with (String.substring 0 (String.length (String c body)) (String c body)).
      apply substring_all.
  - (* closed only *)
    destruct body as [|c body].
    + reflexivity.
    + cbn [occurrences] in Hocc.
      assert (Hc : Ascii.eqb c backtick = false)
        by (destruct (Ascii.eqb c backtick); [discriminate Hocc|reflexivity]).
      rewrite bool_decide_eq_false_2.
      2:{ rewrite index_get by lia. cbn. intros [= ->].
          now rewrite Ascii.eqb_refl in Hc. }
      rewrite bool_decide_eq_true_2.
      2:{ rewrite index_get
            by (unfold JSString.length; rewrite length_append;
                cbn [String.length]; lia).
          unfold JSString.length.
          replace (Z.to_nat (Z.of_nat (String.length (String c body +:+ String backtick EmptyString)) - 1))
            with (String.length (String c body)) by (rewrite length_append; cbn; lia).
          apply get_after. }
      unfold JSString.length.
      replace (Z.of_nat (String.length (String c body +:+ String backtick EmptyString)) - 1)
        with (Z.of_nat (String.length (String c body)))
        by (rewrite length_append; cbn [String.length]; lia).
      change 0 with (Z.of_nat 0).
      rewrite slice_from_to by (rewrite length_append; cbn [String.length]; lia).
      rewrite Nat.sub_0_r. apply substring_prefix.
  - (* neither *)
    destruct body as [|c body]; [reflexivity|].
    cbn [occurrences] in Hocc.
    assert (Hc : Ascii.eqb c backtick = false)
      by (destruct (Ascii.eqb c backtick); [discriminate Hocc|reflexivity]).
    rewrite bool_decide_eq_false_2.
    2:{ rewrite index_get by lia. cbn. intros [= ->].
        now rewrite Ascii.eqb_refl in Hc. }
    rewrite bool_decide_eq_false_2.
    2:{ apply index_absent. cbn [occurrences]. exact Hocc. }
    unfold JSString.length. change 0 with (Z.of_nat 0).
    rewrite slice_from_to by lia.
    rewrite Nat.sub_0_r. apply substring_all.
Qed.

End TemplateChunks.

(** X11.  How [tokenizeC] cuts the delimiters of a template chunk: a
    backtick in front and a backtick behind are dropped, each on its own,
    and nothing else is, so the text of a middle chunk is split as it
    stands.  For a non-empty chunk at the head of the stream
    [src/esprima.ts] returns one entry per space-separated piece of the text
    between the backticks. *)
Theorem Esprima_tokenizeC_template_chunk
    (opened closed : bool) (body : string) (rest : list Token)
    (code : string) (options : option Obj) (f : option (Token -> Value)) :
  occurrences backtick body = 0%nat ->
  template_chunk opened closed body <> EmptyString ->
  Esprima.tokenizeC
    (fun _ _ => quiet ({| type := "Template";
                          value := template_chunk opened closed body |} :: rest))
    code options (returning <$> f)
  = Normal {| Array.elements :=
                map (fun e => VToken {| type := "Template"; value := strip_quotes e |})
                    (JSString.split " " body);
              Array.errors := if option_set options "tolerant" then Some [] else None |}.
Proof.
  intros Hocc Hne. rewrite Esprima_tokenizeC_quiet, entries_literal.
  - unfold unwrap. cbn [type value String.eqb Ascii.eqb Bool.eqb].
    now rewrite unwrap_template_chunk.
  - unfold is_literal. cbn [type value].
    apply String.eqb_neq in Hne. now rewrite Hne.
Qed.

(** The theorem above on the middle chunk [}one two${] of a template. *)
Lemma Esprima_tokenizeC_template_chunk_witness :
  Esprima.tokenizeC
    (fun _ _ => quiet ({| type := "Template";
                          value := template_chunk false false "}one two${" |} :: []))
    "}one two${" None (returning <$> None)
  = Normal {| Array.elements :=
                map (fun e => VToken {| type := "Template"; value := strip_quotes e |})
                    (JSString.split " " "}one two${");
              Array.errors := if option_set None "tolerant" then Some [] else None |}.
Proof.
  exact (Esprima_tokenizeC_template_chunk false false "}one two${" [] "}one two${"
           None None eq_refl ltac:(discriminate)).
Defined.

(** ** What [isHTML] accepts *)

Section PatternFacts.

Lemma canonicalize_idempotent (c : ascii) :
  RegExp.canonicalize true (RegExp.canonicalize true c) = RegExp.canonicalize true c.
Proof. destruct c as [[] [] [] [] [] [] [] []]; reflexivity. Qed.

Lemma atom_accepts_upper (a : RegExp.Atom) (c : ascii) :
  RegExp.atom_accepts true a (RegExp.canonicalize true c) = RegExp.atom_accepts true a c.
Proof.
  destruct a as [p|members]; cbn [RegExp.atom_accepts]; unfold RegExp.same_unit.
  - now rewrite canonicalize_idempotent.
  - induction members as [|m members IH]; [reflexivity|].
    cbn [existsb]. rewrite IH. now rewrite canonicalize_idempotent.
Qed.

Lemma consume_upper (a : RegExp.Atom) (k : string -> bool) :
  (forall s, k (upper s) = k s) ->
  forall s, RegExp.consume true a k (upper s) = RegExp.consume true a k s.
Proof.
  intros Hk [|c s]; [reflexivity|].
  cbn [upper RegExp.consume]. now rewrite atom_accepts_upper, Hk.
Qed.

Lemma repeat_atom_upper (a : RegExp.Atom) (k : string -> bool) :
  (forall s, k (upper s) = k s) ->
  forall s, RegExp.repeat_atom true a k (upper s) = RegExp.repeat_atom true a k s.
Proof.
  intros Hk s. induction s as [|c s IH]; [reflexivity|].
  change (RegExp.repeat_atom true a k (upper (String c s)))
    with (k (upper (String c s))
          || (RegExp.atom_accepts true a (RegExp.canonicalize true c)
              && RegExp.repeat_atom true a k (upper s))).
  now rewrite Hk, atom_accepts_upper, IH.
Qed.

Lemma match_terms_upper (terms : RegExp.Alternative) :
  forall s, RegExp.match_terms true terms (upper s) = RegExp.match_terms true terms s.
Proof.
  induction terms as [|[a q] terms IH]; [reflexivity|].
  cbn [RegExp.match_terms]. destruct q; intros s.
  - now apply consume_upper.
  - now rewrite consume_upper, IH.
  - now apply repeat_atom_upper.
  - apply consume_upper. now apply repeat_atom_upper.
Qed.

Lemma test_upper (r : RegExp.t) (s : string) :
  RegExp.ignoreCase r = true ->
  RegExp.test r (upper s) = RegExp.test r s.
Proof.
  intros Hi.
  assert (Hhere : forall s, RegExp.match_here r (upper s) = RegExp.match_here r s).
  { intros s'. unfold RegExp.match_here. rewrite Hi.
    induction (RegExp.disjunction r) as [|alt alts IH]; [reflexivity|].
    cbn [existsb]. now rewrite match_terms_upper, IH. }
  induction s as [|c s IH]; [reflexivity|].
  change (RegExp.test r (upper (String c s)))
    with (RegExp.match_here r (upper (String c s)) || RegExp.test r (upper s)).
  now rewrite Hhere, IH.
Qed.

Lemma consume_extends i a k : extends k -> extends (RegExp.consume i a k).
Proof.
  intros Hk [|c s] more H; [discriminate H|].
  change (String c s +:+ more) with (String c (s +:+ more)).
  cbn [RegExp.consume] in *. apply andb_true_iff in H as [Ha Hs].
  now rewrite Ha, (Hk s more Hs).
Qed.

Lemma repeat_atom_extends i a k : extends k -> extends (RegExp.repeat_atom i a k).
Proof.
  intros Hk s more. induction s as [|c s IH]; intros H.
  - cbn [RegExp.repeat_atom] in H. rewrite orb_false_r in H.
    change (EmptyString +:+ more) with more.
    pose proof (Hk EmptyString more H) as Hm. change (EmptyString +:+ more) with more in Hm.
    destruct more; cbn [RegExp.repeat_atom]; now rewrite Hm.
  - change (String c s +:+ more) with (String c (s +:+ more)).
    cbn [RegExp.repeat_atom] in *. apply orb_true_iff in H as [H|H].
    + pose proof (Hk (String c s) more H) as Hm.
      change (String c s +:+ more) with (String c (s +:+ more)) in Hm.
      now rewrite Hm.
    + apply andb_true_iff in H as [Ha Hs]. rewrite Ha, (IH Hs). apply orb_true_r.
Qed.

Lemma match_terms_extends i terms : extends (RegExp.match_terms i terms).
Proof.
  induction terms as [|[a q] terms IH]; [now intros s more _|].
  cbn [RegExp.match_terms]. destruct q.
  - now apply consume_extends.
  - intros s more H. apply orb_true_iff in H as [H|H].
    + now rewrite (consume_extends i a _ IH s more H).
    + rewrite (IH s more H). apply orb_true_r.
  - now apply repeat_atom_extends.
  - apply consume_extends. now apply repeat_atom_extends.
Qed.

Lemma match_here_extends r : extends (RegExp.match_here r).
Proof.
  intros s more H. unfold RegExp.match_here in *.
  apply existsb_exists in H as (alt & Hin & Halt).
  apply existsb_exists. exists alt. split; [exact Hin|].
  now apply match_terms_extends.
Qed.

Lemma test_here (r : RegExp.t) (s : string) :
  RegExp.match_here r s = true -> RegExp.test r s = true.
Proof. intros H. destruct s; cbn [RegExp.test]; now rewrite H. Qed.

Lemma test_extends r : extends (RegExp.test r).
Proof.
  intros s more. induction s as [|c s IH]; intros H.
  - cbn [RegExp.test] in H. rewrite orb_false_r in H.
    apply test_here. now apply (match_here_extends r EmptyString more).
  - change (String c s +:+ more) with (String c (s +:+ more)).
    cbn [RegExp.test] in *. apply orb_true_iff in H as [H|H].
    + pose proof (match_here_extends r (String c s) more H) as Hm.
      change (String c s +:+ more) with (String c (s +:+ more)) in Hm.
      now rewrite Hm.
    + rewrite (IH H). apply orb_true_r.
Qed.

Lemma test_after (r : RegExp.t) (before s : string) :
  RegExp.test r s = true -> RegExp.test r (before +:+ s) = true.
Proof.
  intros H. induction before as [|c before IH]; [exact H|].
  change (String c before +:+ s) with (String c (before +:+ s)).
  cbn [RegExp.test]. rewrite IH. apply orb_true_r.
Qed.

End PatternFacts.

(** X12.  [isHTML] does not tell upper case from lower case: two texts
    that are equal once their letters [a] to [z] are put in upper case
    classify alike. *)
Theorem isHTML_ignores_case (s1 s2 : string) :
  upper s1 = upper s2 -> Custom.isHTML s1 = Custom.isHTML s2.
Proof.
  intros H. rewrite !isHTML_test.
  transitivity (RegExp.test html_regex (upper s1)).
  - symmetry. apply test_upper. reflexivity.
  - rewrite H. apply test_upper. reflexivity.
Qed.

(** The theorem above on a tag in mixed case. *)
Lemma isHTML_ignores_case_witness :
  Custom.isHTML "<Div>x</dIV>" = Custom.isHTML "<div>x</div>".
Proof. exact (isHTML_ignores_case "<Div>x</dIV>" "<div>x</div>" eq_refl). Defined.

(** X13.  [isHTML] looks for a match anywhere in the text: a text that
    contains a part [isHTML] accepts is accepted, whatever stands before
    and after that part.  So a literal with markup anywhere in it goes to
    the markup fragments whole. *)
Theorem isHTML_anywhere (before s after : string) :
  Custom.isHTML s = true ->
  Custom.isHTML (before +:+ s +:+ after) = true.
Proof.
  rewrite (isHTML_test s), (isHTML_test (before +:+ s +:+ after)). intros H.
  apply test_after. exact (test_extends html_regex s after H).
Qed.

(** The theorem above on a tag inside a sentence. *)
Lemma isHTML_anywhere_witness :
  Custom.isHTML ("1 + 1 " +:+ "<td>" +:+ " = 2") = true.
Proof.
  refine (isHTML_anywhere "1 + 1 " "<td>" " = 2" _).
  vm_compute. reflexivity.
Defined.

Section PatternShape.

(** The pattern, alternative by alternative: the first one carries the
    angle bracket and the optional slash, the last one the class and the
    closing bracket, and every tag name in between stands alone. *)
Lemma html_regex_alternatives :
  RegExp.disjunction html_regex
  = [(RegExp.PatternCharacter "<", RegExp.Once);
     (RegExp.PatternCharacter "/", RegExp.Optional);
     (RegExp.PatternCharacter "a", RegExp.Once)]
    :: map spelled inner_tags
    ++ [[(RegExp.PatternCharacter "w", RegExp.Once);
         (RegExp.PatternCharacter "b", RegExp.Once);
         (RegExp.PatternCharacter "r", RegExp.Once);
         (RegExp.CharacterClass ["s"; "S"]%char, RegExp.Star);
         (RegExp.PatternCharacter ">", RegExp.Once)]].
Proof. vm_compute. reflexivity. Qed.

Lemma html_tags_inner : Custom.html_tags = "a" :: inner_tags ++ ["wbr"].
Proof. vm_compute. reflexivity. Qed.

Lemma match_spelled (i : bool) (text more : string) :
  RegExp.match_terms i (spelled text) (text +:+ more) = true.
Proof.
  induction text as [|c text IH]; [reflexivity|].
  change (spelled (String c text))
    with ((RegExp.PatternCharacter c, RegExp.Once) :: spelled text).
  change (String c text +:+ more) with (String c (text +:+ more)).
  cbn [RegExp.match_terms RegExp.consume RegExp.atom_accepts].
  unfold RegExp.same_unit. now rewrite Ascii.eqb_refl, IH.
Qed.

Lemma html_regex_starts :
  forallb starts_with_letter_or_lt (RegExp.disjunction html_regex) = true.
Proof. vm_compute. reflexivity. Qed.

Lemma same_unit_other (p c : ascii) :
  letter_or_lt p = true -> letter_or_lt c = false -> RegExp.same_unit true p c = false.
Proof.
  intros Hp Hc. unfold RegExp.same_unit.
  destruct (Ascii.eqb (RegExp.canonicalize true p) (RegExp.canonicalize true c)) eqn:E;
    [|reflexivity].
  apply Ascii.eqb_eq in E. unfold letter_or_lt in Hp, Hc.
  rewrite E in Hp. congruence.
Qed.

Lemma no_match_at (alts : RegExp.Disjunction) (s : string) :
  forallb starts_with_letter_or_lt alts = true ->
  match s with
  | EmptyString => True
  | String c _ => letter_or_lt c = false
  end ->
  existsb (fun alt => RegExp.match_terms true alt s) alts = false.
Proof.
  intros Halts Hs. induction alts as [|alt alts IH]; [reflexivity|].
  cbn [forallb] in Halts. apply andb_true_iff in Halts as [Halt Halts].
  cbn [existsb]. rewrite (IH Halts), orb_false_r.
  destruct alt as [|[[p|members] []] terms]; try discriminate Halt.
  cbn [starts_with_letter_or_lt] in Halt.
  cbn [RegExp.match_terms]. destruct s as [|c s]; [reflexivity|].
  cbn [RegExp.consume RegExp.atom_accepts].
  now rewrite (same_unit_other p c Halt Hs).
Qed.

Lemma test_no_letters (r : RegExp.t) (s : string) :
  RegExp.ignoreCase r = true ->
  forallb starts_with_letter_or_lt (RegExp.disjunction r) = true ->
  forallb (fun c => negb (letter_or_lt c)) (list_ascii_of_string s) = true ->
  RegExp.test r s = false.
Proof.
  intros Hi Halts. induction s as [|c s IH]; intros Hs.
  - cbn [RegExp.test]. unfold RegExp.match_here. rewrite Hi.
    now rewrite (no_match_at _ EmptyString Halts I).
  - cbn [list_ascii_of_string forallb] in Hs.
    apply andb_true_iff in Hs as [Hc Hs]. apply negb_true_iff in Hc.
    cbn [RegExp.test]. unfold RegExp.match_here at 1. rewrite Hi.
    rewrite (no_match_at _ (String c s) Halts Hc). now rewrite (IH Hs).
Qed.

End PatternShape.

(** X14.  A text without a letter and without [<] is never markup: digits,
    spaces and punctuation alone always go to the plain tokens. *)
Theorem isHTML_needs_a_letter (s : string) :
  forallb (fun c => negb (letter_or_lt c)) (list_ascii_of_string s) = true ->
  Custom.isHTML s = false.
Proof.
  intros H. rewrite (isHTML_test s).
  exact (test_no_letters html_regex s eq_refl html_regex_starts H).
Qed.

(** The theorem above on a text of digits, spaces and punctuation. *)
Lemma isHTML_needs_a_letter_witness : Custom.isHTML "12 > 3.5, #4 /> 0" = false.
Proof. exact (isHTML_needs_a_letter "12 > 3.5, #4 /> 0" eq_refl). Defined.

(** X15.  The pattern of [isHTML] has the tag names, all but [a] and
    [wbr], as alternatives of their own: a text that contains one of these
    names anywhere, brackets or not, is accepted. *)
Theorem isHTML_accepts_tag_names (tag before after : string) :
  In tag inner_tags ->
  Custom.isHTML (before +:+ tag +:+ after) = true.
Proof.
  intros Htag. rewrite (isHTML_test (before +:+ tag +:+ after)).
  apply (test_anywhere html_regex (spelled tag)).
  - rewrite html_regex_alternatives. right. apply in_or_app. left.
    now apply in_map.
  - apply match_spelled.
Qed.

(** The theorem above on a sentence with the word [time] in it. *)
Lemma isHTML_accepts_tag_names_witness :
  Custom.isHTML ("next " +:+ "time" +:+ " around") = true.
Proof.
  refine (isHTML_accepts_tag_names "time" "next " " around" _).
  unfold inner_tags. cbn [Custom.html_tags tl removelast].
  repeat (first [left; reflexivity | right]).
Defined.

(** ** [parse]: what it returns and what it leaves alone *)

Section ParseCompletionFacts.

Context {Node Metadata Program Comment : Type}.
Variable imports : @Esprima.Imports Node Metadata Program Comment.
Variable code : string.
Variable delegate : option (@Esprima.Visitor Node Metadata).

Lemma parse_completion_Some (r : Ref) (h : Heap) :
  fst (Esprima.parse imports code (Some r) delegate h)
  = parse_completion imports code (Some (Store.deref r h)) delegate.
Proof.
  unfold Esprima.parse, parse_completion, selected_parsing, selected_parser,
    proxied, initial_handler, seen_by_parser, handles_comments.
  unfold mbind, M_bind, Store.read, Store.write, gets, modify, mret, M_ret,
    throw, Esprima.lift.
  cbn [fst snd fmap option_fmap option_map option_set].
  destruct (is_true (get_property (Store.deref r h) "comment")) eqn:Hcomment,
    (is_true (get_property (Store.deref r h) "attachComment")) eqn:Hattach;
    cbn [orb]; rewrite ?deref_insert; unfold is_module;
    match goal with
    | |- context [get_property ?o "jsx"] =>
        destruct (is_true (get_property o "jsx")),
          (match get_property o "sourceType" with
           | VString s => String.eqb s "module"
           | _ => false
           end)
    end;
    try destruct (bool_decide (is_Some delegate));
    repeat match goal with
           | |- context [match ?d with _ => _ end] =>
               lazymatch d with
               | Esprima.deliver _ _ _ _ => destruct d
               | Esprima.outcome _ => destruct d
               end
           end;
    reflexivity.
Qed.

Lemma parse_completion_None (h : Heap) :
  fst (Esprima.parse imports code None delegate h)
  = parse_completion imports code None delegate.
Proof.
  unfold Esprima.parse, parse_completion, selected_parsing, selected_parser,
    proxied, initial_handler.
  unfold mbind, M_bind, gets, modify, mret, M_ret, throw, Esprima.lift.
  cbn [fst snd fmap option_fmap option_map option_set orb].
  destruct (bool_decide (is_Some delegate));
    repeat match goal with
           | |- context [match ?d with _ => _ end] =>
               lazymatch d with
               | Esprima.deliver _ _ _ _ => destruct d
               | Esprima.outcome _ => destruct d
               end
           end;
    reflexivity.
Qed.

End ParseCompletionFacts.

Section ParseProperties.

Context {Node Metadata Program Comment : Type}.
Variable imports : @Esprima.Imports Node Metadata Program Comment.

Lemma deliver_keeps_handler (delegate : option (@Esprima.Visitor Node Metadata))
    nodes (ch : Esprima.CommentHandler imports) x :
  Esprima.deliver imports delegate nodes (Some ch) = Normal x -> is_Some x.
Proof.
  revert ch. induction nodes as [|[node metadata] nodes IH]; intros ch H.
  - injection H as <-. now exists ch.
  - cbn [Esprima.deliver] in H. unfold Esprima.proxyDelegate in H.
    destruct (match delegate with
              | Some d => d node metadata
              | None => None
              end); [discriminate H|].
    cbn [fmap option_fmap option_map] in H. exact (IH _ H).
Qed.

Lemma handles_comments_after (o : Obj) :
  handles_comments (<["comment" := VBool true]> o) = true.
Proof.
  unfold handles_comments, get_property. now rewrite lookup_insert_eq.
Qed.

Lemma parse_leaves_the_store_aux
    (code : string) (options : option Ref)
    (delegate : option (@Esprima.Visitor Node Metadata)) (h : Heap) :
  match options with
  | Some r => handles_comments (Store.deref r h) = false
  | None => True
  end ->
  snd (Esprima.parse imports code options delegate h) = h.
Proof.
  intros H. rewrite parse_store. destruct options as [r|]; [|reflexivity].
  now rewrite H.
Qed.

End ParseProperties.

(** X16.  [parse] writes to the store only to set [comment] on the
    options: when the options are missing, or when neither their [comment]
    nor their [attachComment] is the boolean [true], the store after the
    call is the store before it, whether the call returns or raises. *)
Theorem parse_leaves_the_store
    {Node Metadata Program Comment : Type}
    (imports : @Esprima.Imports Node Metadata Program Comment)
    (code : string) (options : option Ref)
    (delegate : option (@Esprima.Visitor Node Metadata)) (h : Heap) :
  match options with
  | Some r => handles_comments (Store.deref r h) = false
  | None => True
  end ->
  snd (Esprima.parse imports code options delegate h) = h.
Proof.
  apply parse_leaves_the_store_aux.
Qed.

(** The theorem above on options whose [comment] is the string [true]. *)
Lemma parse_leaves_the_store_witness :
  let h : Heap := {[ 1%positive := {[ "comment" := VString "true" ]} ]} in
  snd (Esprima.parse idle_imports "var x" (Some 1%positive) None h) = h.
Proof.
  exact (parse_leaves_the_store idle_imports "var x" (Some 1%positive) None
           {[ 1%positive := {[ "comment" := VString "true" ]} ]} eq_refl).
Defined.

(** X17.  What [parse] does to the store it does once: a second call with
    the same options, on whatever source and with whatever delegate, leaves
    the store as the first call left it. *)
Theorem parse_store_idempotent
    {Node Metadata Program Comment : Type}
    (imports : @Esprima.Imports Node Metadata Program Comment)
    (code code' : string) (options : option Ref)
    (delegate delegate' : option (@Esprima.Visitor Node Metadata)) (h : Heap) :
  snd (Esprima.parse imports code' options delegate'
         (snd (Esprima.parse imports code options delegate h)))
  = snd (Esprima.parse imports code options delegate h).
Proof.
  rewrite !parse_store. destruct options as [r|]; [|reflexivity].
  destruct (handles_comments (Store.deref r h)) eqn:Hc.
  - rewrite deref_insert, handles_comments_after.
    rewrite insert_insert_eq. f_equal. apply insert_insert_eq.
  - now rewrite Hc.
Qed.

(** X18.  The program [parse] returns carries [comments] exactly when the
    [comment] option is the boolean [true] at the call.  With
    [attachComment] alone, [parse] sets [options.comment] and still
    attaches no [comments]. *)
Theorem comments_exactly_when_requested
    {Node Metadata Program Comment : Type}
    (imports : @Esprima.Imports Node Metadata Program Comment)
    (code : string) (r : Ref)
    (delegate : option (@Esprima.Visitor Node Metadata)) (h : Heap)
    (ast : @Esprima.Ast Program Comment) :
  fst (Esprima.parse imports code (Some r) delegate h) = Normal ast ->
  bool_decide (is_Some (Esprima.comments ast))
  = is_true (get_property (Store.deref r h) "comment").
Proof.
  rewrite parse_completion_Some. unfold parse_completion, proxied, initial_handler.
  cbn [option_set].
  destruct (is_true (get_property (Store.deref r h) "comment")) eqn:Hcomment.
  - unfold handles_comments. rewrite Hcomment. cbn [orb].
    destruct (Esprima.deliver _ _ _ _) as [x| |] eqn:Hd; try discriminate.
    apply deliver_keeps_handler in Hd as [ch ->].
    destruct (Esprima.outcome _); [discriminate|].
    intros [= <-]. reflexivity.
  - match goal with
    | |- match ?d with _ => _ end = _ -> _ => destruct d; try discriminate
    end.
    destruct (Esprima.outcome _); [discriminate|].
    intros [= <-]. reflexivity.
Qed.

(** The theorem above on options with [attachComment] alone. *)
Lemma comments_exactly_when_requested_witness :
  let h : Heap := {[ 1%positive := {[ "attachComment" := VBool true ]} ]} in
  let ast := {| Esprima.program := tt; Esprima.comments := None;
                Esprima.ast_tokens := None; Esprima.ast_errors := None |} in
  bool_decide (is_Some (Esprima.comments (Comment := unit) ast))
  = is_true (get_property (Store.deref 1%positive h) "comment").
Proof.
  exact (comments_exactly_when_requested idle_imports "var x" 1%positive None
           {[ 1%positive := {[ "attachComment" := VBool true ]} ]}
           {| Esprima.program := tt; Esprima.comments := None;
              Esprima.ast_tokens := None; Esprima.ast_errors := None |}
           eq_refl).
Defined.

Lemma parse_without_delegate_aux
    {Node Metadata Program Comment : Type}
    (imports : @Esprima.Imports Node Metadata Program Comment)
    (code : string) (options : option Ref) (h : Heap) :
  match options with
  | Some r => handles_comments (Store.deref r h) = false
  | None => True
  end ->
  let properties := (fun r => Store.deref r h) <$> options in
  let parser :=
    (if option_set properties "jsx"
     then Esprima.new_JSXParser imports else Esprima.new_Parser imports)
      code properties false in
  let parsing :=
    if match properties with
       | Some o => is_module o
       | None => false
       end
    then Esprima.run_parseModule parser else Esprima.run_parseScript parser in
  Esprima.parse imports code options None h = (plain_result parser parsing, h).
Proof.
  intros H. cbv zeta.
  rewrite (surjective_pairing (Esprima.parse imports code options None h)).
  rewrite (parse_leaves_the_store_aux imports code options None h H).
  f_equal. destruct options as [r|].
  - rewrite parse_completion_Some.
    unfold parse_completion, selected_parsing, selected_parser, proxied,
      initial_handler, seen_by_parser, plain_result.
    cbn [fmap option_fmap option_map option_set]. cbv beta. rewrite H.
    cbn [orb]. rewrite bool_decide_eq_false_2 by (intros [? ?]; discriminate).
    unfold handles_comments in H. apply orb_false_iff in H as [Hc _].
    rewrite Hc. now destruct (Esprima.outcome _).
  - rewrite parse_completion_None.
    unfold parse_completion, selected_parsing, selected_parser, proxied,
      initial_handler, plain_result.
    cbn [fmap option_fmap option_map orb option_set].
    rewrite bool_decide_eq_false_2 by (intros [? ?]; discriminate).
    now destruct (Esprima.outcome _).
Qed.

(** X19.  Without a delegate and without a request for comments, [parse]
    is the run of the parser it selects: it raises what the parser raises
    and returns the program the parser returns, without [comments], and the
    nodes the parser completes are reported to nobody.  The parser is the
    JSX parser when [jsx] is the boolean [true] and the plain one otherwise;
    the entry point is [parseModule] when [sourceType] is the string
    [module] and [parseScript] otherwise, also when the options are
    missing. *)
Theorem parse_without_delegate
    {Node Metadata Program Comment : Type}
    (imports : @Esprima.Imports Node Metadata Program Comment)
    (code : string) (options : option Ref) (h : Heap) :
  match options with
  | Some r => handles_comments (Store.deref r h) = false
  | None => True
  end ->
  let properties := (fun r => Store.deref r h) <$> options in
  let parser :=
    (if option_set properties "jsx"
     then Esprima.new_JSXParser imports else Esprima.new_Parser imports)
      code properties false in
  let parsing :=
    if match properties with
       | Some o => is_module o
       | None => false
       end
    then Esprima.run_parseModule parser else Esprima.run_parseScript parser in
  Esprima.parse imports code options None h = (plain_result parser parsing, h).
Proof. apply parse_without_delegate_aux. Qed.

(** The theorem above on a call without options. *)
Lemma parse_without_delegate_witness :
  Esprima.parse idle_imports "var x" None None ∅
  = (plain_result (Comment := unit) idle_parser (Esprima.run_parseScript idle_parser), ∅).
Proof.
  exact (parse_without_delegate idle_imports "var x" None ∅ I).
Defined.

Section MoreParseProperties.

Context {Node Metadata Program Comment : Type}.
Variable imports : @Esprima.Imports Node Metadata Program Comment.

Lemma jsx_seen_by_parser (o : Obj) :
  get_property (seen_by_parser o) "jsx" = get_property o "jsx".
Proof.
  unfold seen_by_parser. destruct (handles_comments o); [|reflexivity].
  unfold get_property. now rewrite lookup_insert_ne by discriminate.
Qed.

Lemma parse_with_JSXParser_aux jsx code (options : option Ref)
    (delegate : option (@Esprima.Visitor Node Metadata)) (h : Heap) :
  match options with
  | Some r => is_true (get_property (Store.deref r h) "jsx") = false
  | None => True
  end ->
  Esprima.parse (with_JSXParser jsx imports) code options delegate h
  = Esprima.parse imports code options delegate h.
Proof.
  intros H.
  rewrite (surjective_pairing (Esprima.parse (with_JSXParser jsx imports) code options delegate h)).
  rewrite (surjective_pairing (Esprima.parse imports code options delegate h)).
  rewrite !parse_store. f_equal. destruct options as [r|].
  - rewrite !parse_completion_Some.
    unfold parse_completion, selected_parsing, selected_parser.
    cbn [fmap option_fmap option_map option_set].
    rewrite !jsx_seen_by_parser, H. reflexivity.
  - rewrite !parse_completion_None. reflexivity.
Qed.

End MoreParseProperties.

(** X20.  The JSX parser is constructed only when [jsx] is the boolean
    [true]: with the options missing, or with any other value of [jsx],
    what [parse] returns and what it does to the store do not depend on the
    JSX parser at all. *)
Theorem parse_ignores_JSXParser
    {Node Metadata Program Comment : Type}
    (imports : @Esprima.Imports Node Metadata Program Comment)
    (jsx : string -> option Obj -> bool -> @Esprima.Parser Node Metadata Program)
    (code : string) (options : option Ref)
    (delegate : option (@Esprima.Visitor Node Metadata)) (h : Heap) :
  match options with
  | Some r => is_true (get_property (Store.deref r h) "jsx") = false
  | None => True
  end ->
  Esprima.parse (with_JSXParser jsx imports) code options delegate h
  = Esprima.parse imports code options delegate h.
Proof. apply parse_with_JSXParser_aux. Qed.

(** The theorem above on options whose [jsx] is the number 1, with a JSX
    parser that raises on everything. *)
Lemma parse_ignores_JSXParser_witness :
  let e := {| message := "jsx"; index := 0; lineNumber := 1; column := 0 |} in
  let raising : string -> option Obj -> bool -> @Esprima.Parser unit unit unit :=
    fun _ _ _ =>
      {| Esprima.config_tokens := false; Esprima.config_tolerant := false;
         Esprima.run_parseScript := {| Esprima.completed := []; Esprima.outcome := inl e |};
         Esprima.run_parseModule := {| Esprima.completed := []; Esprima.outcome := inl e |};
         Esprima.parser_tokens := []; Esprima.parser_errors := [] |} in
  let h : Heap := {[ 1%positive := {[ "jsx" := VNumber 1 ]} ]} in
  Esprima.parse (with_JSXParser raising idle_imports) "<a/>" (Some 1%positive) None h
  = Esprima.parse idle_imports "<a/>" (Some 1%positive) None h.
Proof.
  exact (parse_ignores_JSXParser idle_imports _ "<a/>" (Some 1%positive) None
           {[ 1%positive := {[ "jsx" := VNumber 1 ]} ]} eq_refl).
Defined.

(** X21.  [parseModule] and [parseScript] called without options and
    without a delegate: the store gains one object, [{sourceType}], at a
    reference that was not in use, and every object that was there stays as
    it was; the result is that of the plain parser, constructed with these
    options, through the entry point of the same name. *)
Theorem parseModule_parseScript_without_options
    {Node Metadata Program Comment : Type}
    (imports : @Esprima.Imports Node Metadata Program Comment)
    (code : string) (h : Heap) :
  let module_options : Obj := {[ "sourceType" := VString "module" ]} in
  let script_options : Obj := {[ "sourceType" := VString "script" ]} in
  let module_parser := Esprima.new_Parser imports code (Some module_options) false in
  let script_parser := Esprima.new_Parser imports code (Some script_options) false in
  Esprima.parseModule imports code None None h
  = (plain_result module_parser (Esprima.run_parseModule module_parser),
     <[fresh (dom h) := module_options]> h)
  /\ Esprima.parseScript imports code None None h
     = (plain_result script_parser (Esprima.run_parseScript script_parser),
        <[fresh (dom h) := script_options]> h)
  /\ h !! fresh (dom h) = None.
Proof.
  cbv zeta. unfold Esprima.parseModule, Esprima.parseScript.
  assert (Hfresh : h !! fresh (dom h) = None).
  { destruct (h !! fresh (dom h)) as [o|] eqn:H; [|reflexivity].
    exfalso. apply (is_fresh (dom h)), elem_of_dom. now exists o. }
  repeat split; [| |exact Hfresh].
  - erewrite bind_normal; [|reflexivity].
    erewrite bind_normal; [|reflexivity].
    rewrite force_on_new_object, deref_fresh, insert_empty.
    rewrite parse_without_delegate_aux
      by (rewrite deref_insert; reflexivity).
    cbn [fmap option_fmap option_map]. rewrite deref_insert. reflexivity.
  - erewrite bind_normal; [|reflexivity].
    erewrite bind_normal; [|reflexivity].
    rewrite force_on_new_object, deref_fresh, insert_empty.
    rewrite parse_without_delegate_aux
      by (rewrite deref_insert; reflexivity).
    cbn [fmap option_fmap option_map]. rewrite deref_insert. reflexivity.
Qed.

(** ** More on literals *)

Section AfterTheLiteral.

Local Opaque JSString.slice JSString.split JSString.substring
  JSString.index JSString.length.

Lemma Esprima_loop_literal delegate before t after h tokens :
  is_literal t = true ->
  EsprimaLoop.finish
    (EsprimaLoop.tokenizeC_loop delegate h (before ++ Tokenizer.Yields t :: after) tokens)
  = EsprimaLoop.finish
      (EsprimaLoop.tokenizeC_loop delegate h (before ++ [Tokenizer.Yields t]) tokens).
Proof.
  intros Hlit. revert h tokens.
  induction before as [|[t'|e|e] before IH]; intros h tokens;
    cbn [app EsprimaLoop.tokenizeC_loop].
  - unfold is_literal in Hlit. apply andb_true_iff in Hlit as [Hty Hval].
    apply negb_true_iff in Hval. unfold EsprimaLoop.stops. rewrite Hval.
    cbn [orb].
    destruct (String.eqb (type t) "Identifier"), (String.eqb (type t) "String"),
      (String.eqb (type t) "Template");
      try discriminate Hty; reflexivity.
  - destruct (EsprimaLoop.stops t'); [reflexivity|].
    destruct (String.eqb (type t') "String"); [reflexivity|].
    destruct (String.eqb (type t') "Template"); [reflexivity|].
    destruct (EsprimaLoop.transformed delegate t'); [reflexivity|apply IH].
  - destruct (ErrorHandler.tolerant h); [apply IH|reflexivity].
  - reflexivity.
Qed.

End AfterTheLiteral.

(** X22.  Nothing that follows the first string or template literal has a
    part in what [tokenizeC] of [src/esprima.ts] returns: tokens, recoverable
    errors and raised errors after it are never reached, in strict and in
    tolerant mode. *)
Theorem Esprima_tokenizeC_ignores_the_rest
    (before after : list (Tokenizer.Event Token)) (t : Token)
    (code : string) (options : option Obj) (delegate : option Delegate) :
  is_literal t = true ->
  Esprima.tokenizeC (fun _ _ => before ++ Tokenizer.Yields t :: after) code options delegate
  = Esprima.tokenizeC (fun _ _ => before ++ [Tokenizer.Yields t]) code options delegate.
Proof.
  intros Hlit. rewrite !Esprima_tokenizeC_loop. now apply Esprima_loop_literal.
Qed.

(** The theorem above on a literal followed by an unterminated string, in
    strict mode. *)
Lemma Esprima_tokenizeC_ignores_the_rest_witness :
  let x := Tokenizer.Yields {| type := "Identifier"; value := "x" |} in
  let lit := {| type := "String"; value := "'one'" |} in
  let e := {| message := "Unexpected token ILLEGAL"; index := 8; lineNumber := 1;
              column := 8 |} in
  Esprima.tokenizeC (fun _ _ => [x] ++ Tokenizer.Yields lit :: [Tokenizer.Throws e])
    "x 'one' 'two" None None
  = Esprima.tokenizeC (fun _ _ => [x] ++ [Tokenizer.Yields lit]) "x 'one' 'two" None None.
Proof.
  exact (Esprima_tokenizeC_ignores_the_rest
           [Tokenizer.Yields {| type := "Identifier"; value := "x" |}]
           [Tokenizer.Throws {| message := "Unexpected token ILLEGAL"; index := 8;
                                lineNumber := 1; column := 8 |}]
           {| type := "String"; value := "'one'" |}
           "x 'one' 'two" None None eq_refl).
Defined.

(** X23.  In the copy with markup detection the pieces of a string literal
    lose a leading [.] or [#] after the quotes are stripped, the pieces of a
    template literal do not.  For a text that is no markup and holds no
    backtick, the string literal with that text gives the pieces with both
    strippings applied and the template literal with that text gives them
    with the quotes stripped only. *)
Theorem Custom_tokenizeC_selector_prefix
    (open_quote close_quote : ascii) (text : string)
    (code : string) (options : option Obj) (f : option (Token -> Value)) :
  Custom.isHTML text = false ->
  occurrences backtick text = 0%nat ->
  Custom.tokenizeC
    (fun _ _ => quiet [Custom.Tok {| type := "String";
                                     value := String open_quote
                                                (text +:+ String close_quote EmptyString) |};
                       Custom.Tok {| type := "Template";
                                     value := template_chunk true true text |}])
    code options (returning <$> f)
  = Normal {| Custom.result_tokens :=
                {| Array.elements :=
                     map (fun e => strip_selector (strip_quotes e)) (JSString.split " " text)
                     ++ map strip_quotes (JSString.split " " text);
                   Array.errors := if option_set options "tolerant" then Some [] else None |};
              Custom.result_html_tokens := [] |}.
Proof.
  intros Hhtml Hocc. rewrite Custom_tokenizeC_quiet.
  unfold CustomLoop.plain, CustomLoop.markup. cbn [flat_map].
  rewrite !classify_literal by reflexivity.
  unfold unwrap. cbn [type value String.eqb Ascii.eqb Bool.eqb].
  unfold unwrap_string. rewrite slice_inner.
  rewrite (unwrap_template_chunk true true text Hocc). rewrite Hhtml.
  cbn [fst snd]. now rewrite !app_nil_r.
Qed.

(** The theorem above on the text [.x #y]. *)
Lemma Custom_tokenizeC_selector_prefix_witness :
  Custom.tokenizeC
    (fun _ _ => quiet [Custom.Tok {| type := "String";
                                     value := String "'" (".x #y" +:+ String "'" EmptyString) |};
                       Custom.Tok {| type := "Template";
                                     value := template_chunk true true ".x #y" |}])
    "'.x #y' `.x #y`" None (returning <$> None)
  = Normal {| Custom.result_tokens :=
                {| Array.elements :=
                     map (fun e => strip_selector (strip_quotes e)) (JSString.split " " ".x #y")
                     ++ map strip_quotes (JSString.split " " ".x #y");
                   Array.errors := if option_set None "tolerant" then Some [] else None |};
              Custom.result_html_tokens := [] |}.
Proof.
  refine (Custom_tokenizeC_selector_prefix "'" "'" ".x #y" "'.x #y' `.x #y`" None None _ eq_refl).
  vm_compute. reflexivity.
Defined.
